(** * tox environment lifecycle ([tox/tox_env/api.py]): a shallow embedding

    The development follows the class [ToxEnv] of [src/tox/tox_env/api.py]:

    - [PyDict]: Python's insertion-ordered [dict] (an association list whose
      [set] overwrites in place and appends new keys);
    - [PyStr]: the [str] methods the class uses ([split], [join], [replace],
      the [in] test for one character);
    - [Re]: the fragment of Python's [re] that a pass_env glob compiles to;
    - [Tox]: the attributes of a [ToxEnv] object, the world around it
      (process environment, file system, fingerprint cache, collaborators) and
      the methods [setup], [teardown], [_clean], [_setup_env],
      [_environment_variables], the [_paths] setter, [_make_path],
      [interrupt] and [execute_async], written in a state-and-exception monad.

    Modelling boundary.  Exceptions are raised by [_platform_check], by
    [_setup_env], by [execute_async], by [re.compile] and by the overridable
    hooks and collaborators ([_setup_with_env], [_done_with_setup],
    [_teardown], the executor).  A platform pattern beyond the fragment of
    [Re] is matched by the library, which is a collaborator.  File-system
    calls ([exists], [rmtree], [mkdir]) and the fingerprint cache are total
    functions on their models. *)

From Stdlib Require Import String Ascii List ZArith Bool Lia Sorted.
From stdpp Require Import base decidable option list strings gmap.
Import ListNotations.

#[local] Set Warnings "-clear-no-such-hyp".

Local Open Scope string_scope.
Local Open Scope list_scope.

(** ** Python dictionaries *)

Module PyDict.
Section Dict.
Context {K V : Type} `{EqDecision K}.

(** [d[k]] / [d.get(k)] *)
Fixpoint get (k : K) (d : list (K * V)) : option V :=
  match d with
  | [] => None
  | (k', v) :: d' => if decide (k' = k) then Some v else get k d'
  end.

(** [k in d] *)
Definition mem (k : K) (d : list (K * V)) : bool :=
  match get k d with Some _ => true | None => false end.

(** [d[k] = v]: an existing key keeps its position, a new key goes last *)
Fixpoint set (k : K) (v : V) (d : list (K * V)) : list (K * V) :=
  match d with
  | [] => [(k, v)]
  | (k', v') :: d' =>
      if decide (k' = k) then (k', v) :: d' else (k', v') :: set k v d'
  end.

(** [d.pop(k)] (the dictionary that is left) *)
Fixpoint pop (k : K) (d : list (K * V)) : list (K * V) :=
  match d with
  | [] => []
  | (k', v') :: d' => if decide (k' = k) then d' else (k', v') :: pop k d'
  end.

(** iteration over a dictionary yields its keys in insertion order *)
Definition keys (d : list (K * V)) : list K := List.map fst d.

(** [d.values()] *)
Definition values (d : list (K * V)) : list V := List.map snd d.

(** [d.update(d2)] *)
Definition update (d d2 : list (K * V)) : list (K * V) :=
  fold_left (fun acc kv => set (fst kv) (snd kv) acc) d2 d.
End Dict.

(** [dict.fromkeys(ks)] *)
Definition fromkeys {K} `{EqDecision K} (ks : list K) : list (K * unit) :=
fold_left (fun acc k => set k tt acc) ks [].
End PyDict.

Abbreviation dict := (list (string * string)).

(** ** Python strings *)

Module PyStr.

(** [s.split(sep)] for a separator of one character *)
Fixpoint split (sep : ascii) (s : string) : list string :=
  match s with
  | EmptyString => [EmptyString]
  | String c s' =>
      if Ascii.eqb c sep then EmptyString :: split sep s'
      else match split sep s' with
           | h :: t => String c h :: t
           | [] => [String c EmptyString]
           end
  end.

(** [sep.join(l)] *)
Definition join (sep : string) (l : list string) : string :=
  String.concat sep l.

(** [c in s] for one character *)
Fixpoint contains (c : ascii) (s : string) : bool :=
  match s with
  | EmptyString => false
  | String c' s' => Ascii.eqb c' c || contains c s'
  end.

(** [s.replace(c, new)] for one character [c] *)
Fixpoint replace (c : ascii) (new : string) (s : string) : string :=
  match s with
  | EmptyString => EmptyString
  | String c' s' =>
      if Ascii.eqb c' c then new ++ replace c new s'
      else String c' (replace c new s')
  end.

End PyStr.

(** De-duplication with the first occurrence winning, as the specification
  words it: walk the list, keep an element unless it was seen before. *)
Fixpoint dedup_first (seen l : list string) : list string :=
match l with
| [] => []
| x :: l' =>
    if decide (x ∈ seen) then dedup_first seen l'
    else x :: dedup_first (x :: seen) l'
end.

(** [sorted(l)] on strings (code-point order), by insertion *)
Fixpoint sorted_insert (x : string) (l : list string) : list string :=
match l with
| [] => [x]
| y :: l' => if String.leb x y then x :: y :: l' else y :: sorted_insert x l'
end.

Definition sorted (l : list string) : list string :=
fold_right sorted_insert [] l.

(** ** The fragment of [re] that pass_env globs use

  A pattern is a sequence of atoms (a literal character, or [.] for any
  character but a newline), each optionally followed by [*].  Every other
  special character puts the pattern outside the fragment: [compile]
  answers [None]. *)

Module Re.

Inductive atom : Type :=
| AChar (c : ascii)
| AAny.

Inductive item : Type :=
| One (a : atom)
| Many (a : atom).

Definition regex : Type := list item.

Definition newline : ascii := Ascii.ascii_of_nat 10.

(** the special characters of [re] other than [.] *)
Definition is_special (c : ascii) : bool :=
  PyStr.contains c "\^$|?*+()[]{}".

Definition atom_of (c : ascii) : option atom :=
  if Ascii.eqb c "."%char then Some AAny
  else if is_special c then None
  else Some (AChar c).

(** [re.compile(s)] *)
Fixpoint compile (s : string) : option regex :=
  match s with
  | EmptyString => Some []
  | String c s' =>
      match atom_of c with
      | None => None
      | Some a =>
          match s' with
          | String "*"%char s'' =>
              match compile s'' with
              | Some r => Some (Many a :: r)
              | None => None
              end
          | _ =>
              match compile s' with
              | Some r => Some (One a :: r)
              | None => None
              end
          end
      end
  end.

Definition atom_matches (a : atom) (c : ascii) : bool :=
  match a with
  | AChar c' => Ascii.eqb c' c
  | AAny => negb (Ascii.eqb c newline)
  end.

(** [r.match(s) is not None]: the pattern matches at the start of [s] *)
Fixpoint is_match (r : regex) : string -> bool :=
  match r with
  | [] => fun _ => true
  | One a :: r' =>
      fun s =>
        match s with
        | String c s' => atom_matches a c && is_match r' s'
        | EmptyString => false
        end
  | Many a :: r' =>
      fix many (s : string) : bool :=
        is_match r' s
        || match s with
           | String c s' => atom_matches a c && many s'
           | EmptyString => false
           end
  end.

(** [r.fullmatch(s) is not None]: the pattern matches all of [s] *)
Fixpoint is_fullmatch (r : regex) : string -> bool :=
  match r with
  | [] => fun s => match s with EmptyString => true | _ => false end
  | One a :: r' =>
      fun s =>
        match s with
        | String c s' => atom_matches a c && is_fullmatch r' s'
        | EmptyString => false
        end
  | Many a :: r' =>
      fix many (s : string) : bool :=
        is_fullmatch r' s
        || match s with
           | String c s' => atom_matches a c && many s'
           | EmptyString => false
           end
  end.

End Re.

(** ** The environment and the world around it *)

Module Tox.

(** [pathlib.Path]: an absolute POSIX path as the list of its components *)
Definition Path : Type := list string.

(** [str(p)] *)
Definition path_str (p : Path) : string :=
  "/" ++ PyStr.join "/" p.

(** [p] is [d] or lies beneath it *)
Fixpoint path_under (d p : Path) : bool :=
  match d, p with
  | [], _ => true
  | x :: d', y :: p' => bool_decide (x = y) && path_under d' p'
  | _ :: _, [] => false
  end.

(** [p.relative_to(d)]: [None] stands for [ValueError] *)
Fixpoint relative_to (p d : Path) : option Path :=
  match d, p with
  | [], _ => Some p
  | x :: d', y :: p' => if decide (x = y) then relative_to p' d' else None
  | _ :: _, [] => None
  end.

(** [str] of a relative path *)
Definition rel_str (p : Path) : string :=
  match p with
  | [] => "."
  | _ => PyStr.join "/" p
  end.

(** *** File system: the set of paths that exist *)

Definition FS : Type := list Path.

(** [p.exists()] *)
Definition fs_exists (p : Path) (fs : FS) : bool := bool_decide (p ∈ fs).

(** [next(p.iterdir(), None) is not None] *)
Definition fs_nonempty (p : Path) (fs : FS) : bool :=
  existsb (fun q => path_under p q && negb (bool_decide (q = p))) fs.

(** [shutil.rmtree(p)] *)
Definition fs_rmtree (p : Path) (fs : FS) : FS :=
  List.filter (fun q => negb (path_under p q)) fs.

(** the ancestors of [p] that have a name, outermost first, then [p] *)
Fixpoint ancestors (base p : Path) : list Path :=
  match p with
  | [] => []
  | x :: p' => (base ++ [x]) :: ancestors (base ++ [x]) p'
  end.

(** [p.mkdir(parents=True, exist_ok=True)] *)
Definition fs_mkdir (p : Path) (fs : FS) : FS :=
  fold_left (fun acc q => if fs_exists q acc then acc else acc ++ [q])
            (ancestors [] p) fs.

(** *** Exceptions *)

Inductive exn : Type :=
| Skip (reason : string)
| Recreate (reason : string)
| SystemExit (code : Z)
| ReError (pattern : string)
    (* [re.error]; also a pattern outside the fragment of [Re] *)
| Failure (what : string).
    (* any other exception of a hook or a collaborator *)

Inductive result (A : Type) : Type :=
| Ret (a : A)
| Raise (e : exn).
Arguments Ret {A} a.
Arguments Raise {A} e.

(** *** Data *)

(** [self._run_state] *)
Record RunState : Type := mkRunState {
  rs_setup : bool;
  rs_clean : bool;
  rs_teardown : bool
}.

(** the fingerprint [{"name": ..., "type": ...}] *)
Record Fingerprint : Type := mkFingerprint {
  fp_name : string;
  fp_type : string
}.

#[global] Instance Fingerprint_eq_dec : EqDecision Fingerprint.
Proof. solve_decision. Defined.

(** [repr] of a fingerprint, as an f-string prints it (exact for names
    without quotes, backslashes and non-printable characters) *)
Definition fp_repr (f : Fingerprint) : string :=
  "{'name': '" ++ fp_name f ++ "', 'type': '" ++ fp_type f ++ "'}".

Inductive StdinSource : Type := OFF | USER | API.

Record Outcome : Type := mkOutcome {
  out_cmd : list string;
  out_exit_code : Z
}.

(** [ExecuteRequest]; [req_env] is the address of the mapping object *)
Record ExecuteRequest : Type := mkRequest {
  req_cmd : list string;
  req_cwd : Path;
  req_env : nat;
  req_stdin : StdinSource;
  req_run_id : string
}.

(** [ExecuteStatus], known by [id(execute_status)] *)
Record ExecuteStatus : Type := mkStatus {
  st_id : nat
}.

(** the overridable methods of the class *)
Inductive hook : Type := SetupWithEnv | DoneWithSetup | Teardown.

(** what the environment does to the outside, in order *)
Inductive event : Type :=
| LogWarning (msg : string)
| LogDebug (msg : string)
| Rmtree (p : Path)
| Mkdir (p : Path)
| CacheReset
| HookCall (h : hook) (seen : RunState)
| ExecutorCall (req : ExecuteRequest) (show : bool)
| StatusInterrupt (id : nat)
| JournalAddExecute (o : Outcome) (run_id : string).

(** the configuration of the environment ([self.conf], [self.core],
    [self.options], the class itself) *)
Record Conf : Type := mkConf {
  conf_name : string;                 (* self.conf.name *)
  type_name : string;                 (* type(self).__name__ *)
  env_dir : Path;                     (* self.conf["env_dir"] *)
  env_tmp_dir : Path;                 (* self.conf["env_tmp_dir"] *)
  conf_platform : string;             (* self.conf["platform"] *)
  runs_on_platform : string;          (* self.runs_on_platform *)
  conf_recreate : bool;               (* self.conf["recreate"] *)
  raw_pass_env : list string;         (* pass_env before post-processing *)
  set_env : list (string * (dict -> string));
    (* self.conf["set_env"]: its keys, and what [load] answers for each
       given the mapping resolved so far *)
  tox_root : Path;                    (* self.core["tox_root"] *)
  verbosity : Z;                      (* self.options.verbosity *)
  has_journal : bool                  (* bool(self.journal) *)
}.

(** the process: [os.pathsep], [sys.platform], [sys.stdout.isatty()],
    the module constant [_CWD] *)
Record Process : Type := mkProcess {
  os_pathsep : ascii;
  sys_platform : string;
  stdout_isatty : bool;
  _CWD : Path
}.

(** the attributes of the object, and the world it acts on *)
Record World (Σ : Type) : Type := mkWorld {
  _run_state : RunState;
  _paths_private : list Path;
  _hidden_outcomes : option (list Outcome);
  _env_vars : option nat;
  _execute_statuses : list (nat * ExecuteStatus);
  _interrupted : bool;
  cache : gmap string Fingerprint;    (* self.cache *)
  environ : dict;                     (* os.environ *)
  heap : list dict;                   (* the dict objects, by address *)
  fs : FS;
  ext : Σ;                            (* the state of the collaborators *)
  trace : list event
}.
Arguments mkWorld {Σ}.
Arguments _run_state {Σ}.
Arguments _paths_private {Σ}.
Arguments _hidden_outcomes {Σ}.
Arguments _env_vars {Σ}.
Arguments _execute_statuses {Σ}.
Arguments _interrupted {Σ}.
Arguments cache {Σ}.
Arguments environ {Σ}.
Arguments heap {Σ}.
Arguments fs {Σ}.
Arguments ext {Σ}.
Arguments trace {Σ}.

(** the hooks and collaborators: each acts on its own state [Σ] *)
Class Collaborators (Σ : Type) : Type := {
  (* an overridable method, called when the object's run state is [seen]:
     [None] when it returns, [Some e] when it raises [e] *)
  run_hook : hook -> RunState -> Σ -> option exn * Σ;
  (* [executor.call(request, show, out_err).__enter__()] *)
  executor_call : ExecuteRequest -> bool -> Σ -> result ExecuteStatus * Σ;
  (* [status.outcome] *)
  status_outcome : nat -> Σ -> option Outcome;
  (* [status.interrupt()] *)
  status_interrupt : nat -> Σ -> Σ;
  (* [request.shell_cmd] *)
  shell_cmd : list string -> string;
  (* [re.fullmatch(pattern, s) is not None] for a pattern that lies outside
     the fragment of [Re]: [None] when [re] refuses the pattern *)
  re_fullmatch_beyond : string -> string -> option bool
}.


(** *** Assignments to one attribute *)

Definition set_run_state {Σ} (v : RunState) (w : World Σ) : World Σ :=
  mkWorld v (_paths_private w) (_hidden_outcomes w) (_env_vars w)
    (_execute_statuses w) (_interrupted w) (cache w) (environ w) (heap w) (fs
    w) (ext w) (trace w).

Definition set_paths_private {Σ} (v : list Path) (w : World Σ) : World Σ :=
  mkWorld (_run_state w) v (_hidden_outcomes w) (_env_vars w)
    (_execute_statuses w) (_interrupted w) (cache w) (environ w) (heap w) (fs
    w) (ext w) (trace w).

Definition set_hidden_outcomes {Σ} (v : option (list Outcome)) (w : World Σ) : World Σ :=
  mkWorld (_run_state w) (_paths_private w) v (_env_vars w)
    (_execute_statuses w) (_interrupted w) (cache w) (environ w) (heap w) (fs
    w) (ext w) (trace w).

Definition set_env_vars {Σ} (v : option nat) (w : World Σ) : World Σ :=
  mkWorld (_run_state w) (_paths_private w) (_hidden_outcomes w) v
    (_execute_statuses w) (_interrupted w) (cache w) (environ w) (heap w) (fs
    w) (ext w) (trace w).

Definition set_execute_statuses {Σ} (v : list (nat * ExecuteStatus)) (w : World Σ) : World Σ :=
  mkWorld (_run_state w) (_paths_private w) (_hidden_outcomes w) (_env_vars
    w) v (_interrupted w) (cache w) (environ w) (heap w) (fs w) (ext w) (trace
    w).

Definition set_interrupted {Σ} (v : bool) (w : World Σ) : World Σ :=
  mkWorld (_run_state w) (_paths_private w) (_hidden_outcomes w) (_env_vars
    w) (_execute_statuses w) v (cache w) (environ w) (heap w) (fs w) (ext w)
    (trace w).

Definition set_cache {Σ} (v : gmap string Fingerprint) (w : World Σ) : World Σ :=
  mkWorld (_run_state w) (_paths_private w) (_hidden_outcomes w) (_env_vars
    w) (_execute_statuses w) (_interrupted w) v (environ w) (heap w) (fs w)
    (ext w) (trace w).

Definition set_heap {Σ} (v : list dict) (w : World Σ) : World Σ :=
  mkWorld (_run_state w) (_paths_private w) (_hidden_outcomes w) (_env_vars
    w) (_execute_statuses w) (_interrupted w) (cache w) (environ w) v (fs w)
    (ext w) (trace w).

Definition set_fs {Σ} (v : FS) (w : World Σ) : World Σ :=
  mkWorld (_run_state w) (_paths_private w) (_hidden_outcomes w) (_env_vars
    w) (_execute_statuses w) (_interrupted w) (cache w) (environ w) (heap w) v
    (ext w) (trace w).

Definition set_ext {Σ} (v : Σ) (w : World Σ) : World Σ :=
  mkWorld (_run_state w) (_paths_private w) (_hidden_outcomes w) (_env_vars
    w) (_execute_statuses w) (_interrupted w) (cache w) (environ w) (heap w)
    (fs w) v (trace w).

Definition set_trace {Σ} (v : list event) (w : World Σ) : World Σ :=
  mkWorld (_run_state w) (_paths_private w) (_hidden_outcomes w) (_env_vars
    w) (_execute_statuses w) (_interrupted w) (cache w) (environ w) (heap w)
    (fs w) (ext w) v.

(** ** The methods of [ToxEnv] *)

Section Methods.
Context {Σ : Type} `{Collaborators Σ}.
Variable cfg : Conf.
Variable proc : Process.

(** a computation acts on the world and returns or raises *)
Definition M (A : Type) : Type := World Σ -> result A * World Σ.

#[local] Instance M_ret : MRet M := fun A (a : A) w => (Ret a, w).

#[local] Instance M_bind : MBind M := fun A B (f : A -> M B) (m : M A) w =>
  match m w with
  | (Ret a, w') => f a w'
  | (Raise e, w') => (Raise e, w')
  end.

Definition raise {A : Type} (e : exn) : M A := fun w => (Raise e, w).

Definition get_world : M (World Σ) := fun w => (Ret w, w).

Definition modify (f : World Σ -> World Σ) : M unit := fun w => (Ret tt, f w).

Definition emit (e : event) : M unit :=
  modify (fun w => set_trace (trace w ++ [e]) w).

(** [try: body  finally: fin] *)
Definition try_finally {A : Type} (body : M A) (fin : M unit) : M A := fun w =>
  let (r, w1) := body w in
  match fin w1 with
  | (Ret _, w2) => (r, w2)
  | (Raise e, w2) => (Raise e, w2)
  end.

(** [try: body  except ...: handler  else: orelse  finally: fin]; the handler
    answers [None] for an exception that no [except] clause catches *)
Definition try_except_else_finally
    (body : M unit) (handler : exn -> option (M unit))
    (orelse : M unit) (fin : M unit) : M unit :=
  try_finally
    (fun w =>
       match body w with
       | (Ret _, w1) => orelse w1
       | (Raise e, w1) =>
           match handler e with
           | Some h => h w1
           | None => (Raise e, w1)
           end
       end)
    fin.

(** [for x in l: body(x)] *)
Fixpoint for_each {A : Type} (l : list A) (body : A -> M unit) : M unit :=
  match l with
  | [] => mret tt
  | x :: l' => body x;; for_each l' body
  end.

(** [self._run_state.update({"setup": s, "clean": c})] *)
Definition update_setup_clean (s c : bool) : M unit :=
  modify (fun w =>
    set_run_state (mkRunState s c (rs_teardown (_run_state w))) w).

(** [self._run_state.update({"teardown": t})] *)
Definition update_teardown (t : bool) : M unit :=
  modify (fun w =>
    set_run_state
      (mkRunState (rs_setup (_run_state w)) (rs_clean (_run_state w)) t) w).

(** a call of an overridable method *)
Definition call_hook (h : hook) : M unit := fun w =>
  let seen := _run_state w in
  let (r, σ) := run_hook h seen (ext w) in
  let w' := set_trace (trace w ++ [HookCall h seen]) (set_ext σ w) in
  match r with
  | None => (Ret tt, w')
  | Some e => (Raise e, w')
  end.

Definition _setup_with_env : M unit := call_hook SetupWithEnv.

Definition _done_with_setup : M unit := call_hook DoneWithSetup.

Definition _teardown : M unit := call_hook Teardown.

(** *** The fingerprint cache *)

(** Modelled from the spec: [Info.compare] of [tox/tox_env/info.py], which
    the sources do not contain.  "Read the stored fingerprint for [marker] if
    present; report whether it equals [candidate] component-wise; if no prior
    fingerprint existed, unconditionally persist [candidate] as the new
    baseline before returning [(true, None)]"; a differing stored value is
    returned and left unchanged. *)
Definition cache_compare (candidate : Fingerprint) (marker : string)
    : M (bool * option Fingerprint) := fun w =>
  match cache w !! marker with
  | None => (Ret (true, None), set_cache (<[marker := candidate]> (cache w)) w)
  | Some old => (Ret (bool_decide (old = candidate), Some old), w)
  end.

(** Modelled from the spec: [Info.reset] of [tox/tox_env/info.py], which the
    sources do not contain.  "Discard all stored fingerprints for this
    environment." *)
Definition cache_reset : M unit :=
  modify (set_cache ∅);; emit CacheReset.

(** *** Setup, clean, teardown *)

(** [re.fullmatch(pattern, s) is not None], [None] standing for [re.error]:
    a pattern of the fragment is decided by [Re], every other pattern by the
    library *)
Definition re_fullmatch (pattern s : string) : option bool :=
  match Re.compile pattern with
  | Some r => Some (Re.is_fullmatch r s)
  | None => re_fullmatch_beyond pattern s
  end.

Definition _platform_check : M unit :=
  let platform_str := conf_platform cfg in
  if negb (bool_decide (platform_str = "")) then
    match re_fullmatch platform_str (runs_on_platform cfg) with
    | None => raise (ReError platform_str)
    | Some true => mret tt
    | Some false =>
        raise (Skip ("platform " ++ runs_on_platform cfg
                     ++ " does not match " ++ platform_str))
    end
  else mret tt.

Definition _handle_env_tmp_dir : M unit :=
  let env_tmp_dir := env_tmp_dir cfg in
  w ← get_world;
  (if fs_exists env_tmp_dir (fs w) && fs_nonempty env_tmp_dir (fs w) then
     emit (LogDebug ("clear env temp folder " ++ path_str env_tmp_dir));;
     modify (fun w => set_fs (fs_rmtree env_tmp_dir (fs w)) w);;
     emit (Rmtree env_tmp_dir)
   else mret tt);;
  modify (fun w => set_fs (fs_mkdir env_tmp_dir (fs w)) w);;
  emit (Mkdir env_tmp_dir).

Definition _setup_env : M unit :=
  let conf := mkFingerprint (conf_name cfg) (type_name cfg) in
  '(eq, old) ← cache_compare conf "ToxEnv";
  match eq, old with
  | false, Some old =>
      raise (Recreate ("env type changed from " ++ fp_repr old
                       ++ " to " ++ fp_repr conf))
  | _, _ => mret tt
  end;;
  _handle_env_tmp_dir.

(** the argument [force] is not read *)
Definition _clean (force : bool) : M unit :=
  w ← get_world;
  if rs_clean (_run_state w) then mret tt
  else
    let env_dir := env_dir cfg in
    (if fs_exists env_dir (fs w) then
       emit (LogWarning ("remove tox env folder " ++ path_str env_dir));;
       modify (fun w => set_fs (fs_rmtree env_dir (fs w)) w);;
       emit (Rmtree env_dir)
     else mret tt);;
    cache_reset;;
    update_setup_clean false true.

Definition setup (recreate : bool) : M unit :=
  w ← get_world;
  if negb (rs_setup (_run_state w)) then
    _platform_check;;
    let recreate := recreate || conf_recreate cfg in
    (if recreate then _clean false else mret tt);;
    try_except_else_finally
      (_setup_env;; _setup_with_env)
      (fun exception =>
         match exception with
         | Recreate reason =>
             Some (if negb recreate then
                     emit (LogWarning ("recreate env because " ++ reason));;
                     _clean true;;
                     _setup_env;;
                     _setup_with_env
                   else mret tt)
         | _ => None
         end)
      _done_with_setup
      (update_setup_clean true false)
  else mret tt.

Definition teardown : M unit :=
  w ← get_world;
  if negb (rs_teardown (_run_state w)) then
    try_finally _teardown (update_teardown true)
  else mret tt.

(** one provisioning attempt: the two calls that [setup] makes in its [try]
    and again in its handler *)
Definition provision : M unit := _setup_env;; _setup_with_env.

(** the world in which [setup recreate] enters its [try] *)
Definition before_try (recreate : bool) (w : World Σ) : World Σ :=
  if recreate || conf_recreate cfg then snd (_clean false w) else w.

(** what the handler of [setup] does with [Recreate reason] when the
    effective recreate flag is off *)
Definition retry (reason : string) : M unit :=
  emit (LogWarning ("recreate env because " ++ reason));;
  _clean true;;
  _setup_env;;
  _setup_with_env.

(** *** Environment variables and the search path *)

Definition _default_pass_env : list string :=
  let env := ["https_proxy"; "http_proxy"; "no_proxy"; "LANG"; "LANGUAGE";
              "CURL_CA_BUNDLE"; "SSL_CERT_FILE"; "LD_LIBRARY_PATH"] in
  let env := if stdout_isatty proc then env ++ ["TERM"] else env in
  if bool_decide (sys_platform proc = "win32") then
    env ++ ["TEMP"; "TMP"; "USERPROFILE"; "PATHEXT"; "MSYSTEM"]
  else env ++ ["TMPDIR"].

Definition pass_env_post_process (values : list string) : list string :=
  let values := values ++ _default_pass_env in
  sorted (PyDict.keys (PyDict.fromkeys values)).

(** [self.conf["pass_env"]] *)
Definition conf_pass_env : list string :=
  pass_env_post_process (raw_pass_env cfg).

(** [self._make_path()], from the owned paths and the process environment *)
Definition make_path (paths : list Path) (env : dict) : string :=
  let values := PyDict.fromkeys (List.map path_str paths) in
  let values :=
    PyDict.update values
      (PyDict.fromkeys
         (PyStr.split (os_pathsep proc)
            (default "" (PyDict.get "PATH" env)))) in
  PyStr.join (String (os_pathsep proc) "") (PyDict.keys values).

Definition _make_path : M string :=
  w ← get_world; mret (make_path (_paths_private w) (environ w)).

(** a new, empty dict object; its address *)
Definition alloc_dict : M nat := fun w =>
  (Ret (length (heap w)), set_heap (heap w ++ [[]]) w).

(** the dict object at an address *)
Definition dict_at (a : nat) (w : World Σ) : dict :=
  default [] (heap w !! a).

(** [d[k] = v] on the dict object at address [a] *)
Definition dict_setitem (a : nat) (k v : string) : M unit :=
  modify (fun w => set_heap (alter (PyDict.set k v) a (heap w)) w).

(** [[re.compile(e.replace("*", ".*")) for e in l]] *)
Fixpoint compile_all (l : list string) : M (list Re.regex) :=
  match l with
  | [] => mret []
  | e :: l' =>
      match Re.compile (PyStr.replace "*" ".*" e) with
      | None => raise (ReError (PyStr.replace "*" ".*" e))
      | Some r => rs ← compile_all l'; mret (r :: rs)
      end
  end.

(** the property [self._environment_variables]; the answer is the address
    of the mapping object *)
Definition _environment_variables : M nat :=
  w ← get_world;
  match _env_vars w with
  | Some a => mret a
  | None =>
      result ← alloc_dict;
      let pass_env := conf_pass_env in
      glob_pass_env ← compile_all (List.filter (PyStr.contains "*") pass_env);
      let literal_pass_env :=
        List.filter (fun e => negb (PyStr.contains "*" e)) pass_env in
      for_each literal_pass_env (fun env =>
        w ← get_world;
        match PyDict.get env (environ w) with
        | Some value => dict_setitem result env value
        | None => mret tt
        end);;
      (match glob_pass_env with
       | [] => mret tt
       | _ =>
           w ← get_world;
           for_each (environ w) (fun item =>
             if existsb (fun g => Re.is_match g (fst item)) glob_pass_env
             then dict_setitem result (fst item) (snd item)
             else mret tt)
       end);;
      modify (set_env_vars (Some result));;
      path ← _make_path;
      dict_setitem result "PATH" path;;
      for_each (set_env cfg) (fun entry =>
        w ← get_world;
        dict_setitem result (fst entry) (snd entry (dict_at result w)));;
      mret result
  end.

(** the setter of the property [self._paths] *)
Definition set__paths (value : list Path) : M unit :=
  modify (set_paths_private value);;
  w ← get_world;
  match _env_vars w with
  | Some a => result ← _make_path; dict_setitem a "PATH" result
  | None => mret tt
  end.

(** *** Execution and interruption *)

Definition interrupt : M unit :=
  emit (LogWarning ("interrupt tox environment: " ++ conf_name cfg));;
  modify (set_interrupted true);;
  w ← get_world;
  for_each (PyDict.values (_execute_statuses w)) (fun status =>
    modify (fun w => set_ext (status_interrupt (st_id status) (ext w)) w);;
    emit (StatusInterrupt (st_id status))).

(** [execute_async] up to its [yield]: the status handed to the caller and
    the resolved [show].  The optional argument [executor] is left out:
    [executor_call] stands for the executor that is used. *)
Definition execute_async_enter
    (cmd : list string) (stdin : StdinSource) (show : option bool)
    (cwd : option Path) (run_id : string) : M (ExecuteStatus * bool) :=
  w ← get_world;
  if _interrupted w then raise (SystemExit (-2))
  else
    let cwd := default (tox_root cfg) cwd in
    let show := default (3 <? verbosity cfg)%Z show in
    env ← _environment_variables;
    let request := mkRequest cmd cwd env stdin run_id in
    let repr_cwd :=
      (if bool_decide (_CWD proc = req_cwd request) then ""
       else match relative_to (_CWD proc) cwd with
            | Some rel => " " ++ rel_str rel
            | None => " " ++ path_str cwd
            end)%string in
    emit (LogWarning (run_id ++ repr_cwd ++ "> " ++ shell_cmd (req_cmd request)));;
    execute_status ← (fun w =>
      let (r, σ) := executor_call request show (ext w) in
      (r, set_trace (trace w ++ [ExecutorCall request show]) (set_ext σ w)));
    modify (fun w =>
      set_execute_statuses
        (PyDict.set (st_id execute_status) execute_status (_execute_statuses w)) w);;
    mret (execute_status, show).

(** [with self.execute_async(...) as status: body(status)] *)
Definition execute_async {A : Type}
    (cmd : list string) (stdin : StdinSource) (show : option bool)
    (cwd : option Path) (run_id : string)
    (body : ExecuteStatus -> M A) : M A :=
  '(execute_status, show) ← execute_async_enter cmd stdin show cwd run_id;
  a ← try_finally (body execute_status)
        (modify (fun w =>
           set_execute_statuses
             (PyDict.pop (st_id execute_status) (_execute_statuses w)) w));
  w ← get_world;
  let outcome := status_outcome (st_id execute_status) (ext w) in
  (match show, _hidden_outcomes w, outcome with
   | true, Some hidden, Some o =>
       modify (set_hidden_outcomes (Some (hidden ++ [o])))
   | _, _, _ => mret tt
   end);;
  (match has_journal cfg, outcome with
   | true, Some o => emit (JournalAddExecute o run_id)
   | _, _ => mret tt
   end);;
  mret a.

(** *** Callers *)

(** a call that is not a scope *)
Inductive plain_call : Type :=
| CallSetup (recreate : bool)
| CallTeardown
| CallInterrupt
| CallSetPaths (value : list Path)
| CallEnvironmentVariables.

(** a call of a public method; the body of an [execute_async] scope is a
    sequence of plain calls *)
Inductive call : Type :=
| Plain (c : plain_call)
| CallExecuteAsync (cmd : list string) (stdin : StdinSource)
    (show : option bool) (cwd : option Path) (run_id : string)
    (body : list plain_call).

Definition run_plain (c : plain_call) : M unit :=
  match c with
  | CallSetup recreate => setup recreate
  | CallTeardown => teardown
  | CallInterrupt => interrupt
  | CallSetPaths value => set__paths value
  | CallEnvironmentVariables => _environment_variables;; mret tt
  end.

Definition run_call (c : call) : M unit :=
  match c with
  | Plain c => run_plain c
  | CallExecuteAsync cmd stdin show cwd run_id body =>
      execute_async cmd stdin show cwd run_id
        (fun _ => for_each body run_plain)
  end.

(** a caller that makes the calls one after the other and goes on after an
    exception: what each call answered, and the world at the end *)
Fixpoint run_calls (cs : list call) (w : World Σ)
    : list (result unit) * World Σ :=
  match cs with
  | [] => ([], w)
  | c :: cs' =>
      let (r, w1) := run_call c w in
      let (rs, w2) := run_calls cs' w1 in
      (r :: rs, w2)
  end.

End Methods.
End Tox.

(** ** Concrete environments *)

Module Scenario.
Import Tox.

(** [re] beyond the fragment, as far as the runs go: a pattern whose
    alternatives, separated by [|], are patterns of the fragment matches
    when one of them does; the runs use no other pattern, and it is refused *)
Definition alternatives (pattern s : string) : option bool :=
  fold_right
    (fun alt found =>
       match Re.compile alt, found with
       | Some r, Some b => Some (Re.is_fullmatch r s || b)
       | _, _ => None
       end)
    (Some false) (PyStr.split "|" pattern).

(** collaborators whose [_setup_with_env] follows a script, one entry for
    each call ([None]: return, [Some e]: raise [e]; past the end: return);
    the other hooks return, the executor starts a status with identity 7 *)
#[global] Instance scripted : Collaborators (list (option exn)) := {|
  run_hook h _ σ :=
    match h, σ with
    | SetupWithEnv, r :: σ' => (r, σ')
    | _, _ => (None, σ)
    end;
  executor_call _ _ σ := (Ret (mkStatus 7), σ);
  status_outcome _ _ := Some (mkOutcome [] 0);
  status_interrupt _ σ := σ;
  shell_cmd cmd := PyStr.join " " cmd;
  re_fullmatch_beyond := alternatives
|}.

(** an environment "py" under /work/.tox, any platform, no recreate option *)
Definition cfg0 : Conf :=
  mkConf "py" "VirtualEnvRunner" ["work"; ".tox"; "py"]
         ["work"; ".tox"; "py"; "tmp"] "" "linux" false [] []
         ["work"] 2 false.

Definition posix : Process := mkProcess ":" "linux" false ["work"].

(** the object after [__init__], in a world with process environment [env],
    file system [files] and collaborators in state [σ] *)
Definition fresh {Σ} (env : dict) (files : FS) (σ : Σ) : World Σ :=
  mkWorld (mkRunState false false false) [] (Some []) None [] false
          ∅ env [] files σ [].

(** the same, in an empty process environment and file system, with the
    installer hook following [script] *)
Definition start (script : list (option exn)) : World (list (option exn)) :=
  fresh [] [] script.


End Scenario.

(** ** Observations on traces *)

Module Obs.
Import Tox.

Definition is_hook_call (h : hook) (e : event) : bool :=
  match e with
  | HookCall h' _ =>
      match h, h' with
      | SetupWithEnv, SetupWithEnv => true
      | DoneWithSetup, DoneWithSetup => true
      | Teardown, Teardown => true
      | _, _ => false
      end
  | _ => false
  end.

(** how often an overridable method was called *)
Definition count_hook (h : hook) (tr : list event) : nat :=
  length (List.filter (is_hook_call h) tr).

Definition is_executor_call (e : event) : bool :=
  match e with
  | ExecutorCall _ _ => true
  | _ => false
  end.

(** how often the executor was asked to start a process *)
Definition count_executor_calls (tr : list event) : nat :=
  length (List.filter is_executor_call tr).

End Obs.

(** ** Relations that every step of a computation keeps *)

Module Keeps.
Import Tox.

(** [m] takes every world to a world related to it by [R] *)
Definition keeps {Σ A} (R : World Σ -> World Σ -> Prop) (m : M A) : Prop :=
  forall w, R w (snd (m w)).

End Keeps.

(** ** The variable mapping as the specification assembles it

    Literal passthrough, then glob passthrough over the whole process
    environment, then the path key, then the overrides, each step writing
    into the mapping that the steps before left. *)

Module Resolver.

Definition copy_literals (literals : list string) (environ : dict) (d : dict)
    : dict :=
  fold_left
    (fun acc name =>
       match PyDict.get name environ with
       | Some value => PyDict.set name value acc
       | None => acc
       end)
    literals d.

Definition matches_any (globs : list Re.regex) (name : string) : bool :=
  existsb (fun g => Re.is_match g name) globs.

Definition copy_globs (globs : list Re.regex) (environ : dict) (d : dict)
    : dict :=
  fold_left
    (fun acc item =>
       if matches_any globs (fst item)
       then PyDict.set (fst item) (snd item) acc
       else acc)
    environ d.

Definition apply_overrides (overrides : list (string * (dict -> string)))
    (d : dict) : dict :=
  fold_left
    (fun acc entry => PyDict.set (fst entry) (snd entry acc) acc)
    overrides d.

(** the mapping before the overrides *)
Definition passthrough_and_path (literals : list string)
    (globs : list Re.regex) (path : string) (environ : dict) : dict :=
  PyDict.set "PATH" path
    (copy_globs globs environ (copy_literals literals environ [])).

Definition resolve (literals : list string) (globs : list Re.regex)
    (path : string) (overrides : list (string * (dict -> string)))
    (environ : dict) : dict :=
  apply_overrides overrides (passthrough_and_path literals globs path environ).

(** the compiled globs of a pass_env list, when all of them compile *)
Fixpoint compile_globs (pass_env : list string) : option (list Re.regex) :=
  match pass_env with
  | [] => Some []
  | e :: l =>
      if PyStr.contains "*" e then
        match Re.compile (PyStr.replace "*" ".*" e), compile_globs l with
        | Some r, Some rs => Some (r :: rs)
        | _, _ => None
        end
      else compile_globs l
  end.

(** the entries of a pass_env list without a wildcard *)
Definition literals_of (pass_env : list string) : list string :=
  List.filter (fun e => negb (PyStr.contains "*" e)) pass_env.

End Resolver.

(** a step is quiet when it leaves a set interrupted flag set and asks the
    executor for nothing *)
Definition quiet {Σ} (w w' : Tox.World Σ) : Prop :=
  (Tox._interrupted w = true -> Tox._interrupted w' = true)
  ∧ Obs.count_executor_calls (Tox.trace w')
    = Obs.count_executor_calls (Tox.trace w).

(** ** Frames: what the steps of the methods may change

    A relation between the world before and after is a frame of the methods
    other than [teardown] when every primitive step they take is inside
    it. *)

Module Frames.
Import Tox.

(** events that are messages or file-system and cache effects *)
Definition passive (e : event) : bool :=
  match e with
  | LogWarning _ | LogDebug _ | Rmtree _ | Mkdir _ | CacheReset
  | JournalAddExecute _ _ => true
  | HookCall _ _ | ExecutorCall _ _ | StatusInterrupt _ => false
  end.

Record frame {Σ : Type} `{Collaborators Σ}
    (R : World Σ -> World Σ -> Prop) : Prop := mkFrame {
  fr_refl : forall w, R w w;
  fr_trans : forall w1 w2 w3, R w1 w2 -> R w2 w3 -> R w1 w3;
  fr_passive : forall e w,
    passive e = true -> R w (set_trace (trace w ++ [e]) w);
  fr_fs : forall v w, R w (set_fs v w);
  fr_cache : forall v w, R w (set_cache v w);
  fr_heap : forall v w, R w (set_heap v w);
  fr_env_vars : forall v w, R w (set_env_vars v w);
  fr_paths : forall v w, R w (set_paths_private v w);
  fr_statuses : forall v w, R w (set_execute_statuses v w);
  fr_hidden : forall v w, R w (set_hidden_outcomes v w);
  fr_interrupted : forall w, R w (set_interrupted true w);
  fr_status_interrupt : forall id w,
    R w (set_trace (trace w ++ [StatusInterrupt id])
           (set_ext (status_interrupt id (ext w)) w));
  fr_setup_hook : forall h w,
    h ≠ Teardown -> R w (snd (call_hook h w));
  fr_setup_done : forall w, R w (snd (update_setup_clean true false w));
  fr_cleaned : forall w, R w (snd (update_setup_clean false true w));
  fr_executor : forall req show w,
    R w (set_trace (trace w ++ [ExecutorCall req show])
           (set_ext (snd (executor_call req show (ext w))) w))
}.

(** the number of overdue teardown hook calls: those made, plus the one
    still to make while teardown_done is false *)
Definition teardown_budget {Σ} (w : World Σ) : nat :=
  Obs.count_hook Teardown (trace w)
  + (if rs_teardown (_run_state w) then 0 else 1).

(** setup_done and cleaned are not both set *)
Definition flags_consistent {Σ} (w : World Σ) : bool :=
  negb (rs_setup (_run_state w) && rs_clean (_run_state w)).

End Frames.

(** a step is orderly when it leaves the teardown budget as it was, keeps
    teardown_done set and keeps the flags consistent *)
Definition orderly {Σ} (w w' : Tox.World Σ) : Prop :=
  Frames.teardown_budget w' = Frames.teardown_budget w
  ∧ (Tox.rs_teardown (Tox._run_state w) = true ->
     Tox.rs_teardown (Tox._run_state w') = true)
  ∧ (Frames.flags_consistent w = true -> Frames.flags_consistent w' = true).

(** a pattern without [.] and without special characters: a plain name *)
Fixpoint plain_name (s : string) : bool :=
  match s with
  | EmptyString => true
  | String c s' =>
      negb (Ascii.eqb c ".") && negb (Re.is_special c) && plain_name s'
  end.

(** a file system in which every path that exists lies in a directory that
    exists (the root apart) *)
Definition fs_closed (files : Tox.FS) : Prop :=
  forall (p : Tox.Path) (x : string),
    p ++ [x] ∈ files -> p ≠ [] -> p ∈ files.

(** ** Observations on sessions *)

Module Sessions.
Import Tox.

(** how often [status.interrupt()] was called on the status [id] *)
Definition count_interrupts (id : nat) (tr : list event) : nat :=
  length
    (List.filter
       (fun e => match e with
                 | StatusInterrupt id' => bool_decide (id' = id)
                 | _ => false
                 end)
       tr).

(** a step that may only allocate dict objects, write into them and
    memoize the mapping *)
Definition mapping_only {Σ} (w w' : World Σ) : Prop :=
  _run_state w' = _run_state w
  ∧ _paths_private w' = _paths_private w
  ∧ _hidden_outcomes w' = _hidden_outcomes w
  ∧ _execute_statuses w' = _execute_statuses w
  ∧ _interrupted w' = _interrupted w
  ∧ cache w' = cache w
  ∧ environ w' = environ w
  ∧ fs w' = fs w
  ∧ ext w' = ext w
  ∧ trace w' = trace w.

End Sessions.

(** a step that only adds messages and file-system and cache events to the
    trace *)
Definition passive_only {Σ} (w w' : Tox.World Σ) : Prop :=
  exists tr, Tox.trace w' = Tox.trace w ++ tr ∧ forallb Frames.passive tr = true.

(** ** [execute]: a session that is waited for *)

Module Execute.
Import Tox.

(** what [execute] asks of a status besides the collaborators above:
    [status.exit_code] and [status.wait()] *)
Class Waiter (Σ : Type) : Type := {
  status_exit_code : nat -> Σ -> option Z;
  status_wait : nat -> Σ -> Σ
}.

Section WithWaiter.
Context {Σ : Type} `{Collaborators Σ} `{Waiter Σ}.
Variable cfg : Conf.
Variable proc : Process.
#[local] Existing Instances M_ret M_bind.

(** [while status.exit_code is None: status.wait()], given up after [fuel]
    waits; the answer says whether the exit code is there *)
Fixpoint wait_for_exit (fuel : nat) (id : nat) (w : World Σ)
    : result bool * World Σ :=
  match status_exit_code id (ext w) with
  | Some _ => (Ret true, w)
  | None =>
      match fuel with
      | 0 => (Ret false, w)
      | S fuel' =>
          wait_for_exit fuel' id (set_ext (status_wait id (ext w)) w)
      end
  end.

(** [execute]: [None] stands for a loop that is still waiting when the fuel
    is used up; [RuntimeError] is [Failure "RuntimeError"] *)
Definition execute (fuel : nat)
    (cmd : list string) (stdin : StdinSource) (show : option bool)
    (cwd : option Path) (run_id : string) : M (option Outcome) :=
  '(status, exited) ← execute_async cfg proc cmd stdin show cwd run_id
                         (fun status =>
                            exited ← wait_for_exit fuel (st_id status);
                            mret (status, exited));
  if (exited : bool) then
    w ← get_world;
    match status_outcome (st_id status) (ext w) with
    | None => raise (Failure "RuntimeError")
    | Some outcome => mret (Some outcome)
    end
  else mret None.

End WithWaiter.
End Execute.

(** statuses that report exit code 0 once the script is used up; each wait
    uses up one entry of the script *)
#[global] Instance waiting_script : Execute.Waiter (list (option Tox.exn)) := {|
  Execute.status_exit_code _ σ :=
    match σ with
    | [] => Some 0%Z
    | _ :: _ => None
    end;
  Execute.status_wait _ σ := tail σ
|}.

(** ** [tox.session.cmd.show_config]: printing a configuration set

    The printers write to standard output; the state is the state [Σ] of the
    session together with the text written so far.  A [ConfigSet] is an
    object of another module: it is given by its methods.  Of these,
    [__getitem__] (which loads the value) may raise and may change the
    session; [__iter__], [__contains__], [primary_key] and [unused] are
    taken to read the session only.  The keys of the set are read when the
    loop over the set starts. *)

Module ShowConfig.
Import Tox.

(** the codes of [colorama.Fore] that the module uses *)
Record Fore : Type := mkFore {
  YELLOW : string;
  CYAN : string;
  GREEN : string;
  LIGHTRED_EX : string;
  RESET : string
}.

Record ConfigSet (Σ V : Type) : Type := mkConfigSet {
  cs_iter : Σ -> list string;
  cs_contains : string -> Σ -> bool;
  cs_primary_key : string -> Σ -> string;
  cs_getitem : string -> Σ -> result V * Σ;
  cs_unused : Σ -> list string
}.
Arguments mkConfigSet {Σ V}.
Arguments cs_iter {Σ V}.
Arguments cs_contains {Σ V}.
Arguments cs_primary_key {Σ V}.
Arguments cs_getitem {Σ V}.
Arguments cs_unused {Σ V}.

(** what [except Exception] catches: [SystemExit] derives from
    [BaseException] only *)
Definition is_Exception (e : exn) : bool :=
  match e with
  | SystemExit _ => false
  | _ => true
  end.

Definition newline : string := String "010" EmptyString.

Section Printing.
Context {Σ V : Type}.
Variable Fore : Fore.
(** [textwrap.indent(text, prefix)] *)
Variable indent : string -> string -> string.
(** [tox.config.loader.stringify.stringify] *)
Variable stringify : V -> result (string * bool).
(** [repr] of an exception *)
Variable repr : exn -> string.

Definition P (A : Type) : Type := Σ * string -> result A * (Σ * string).

#[local] Instance P_ret : MRet P := fun A (a : A) s => (Ret a, s).

#[local] Instance P_bind : MBind P := fun A B (f : A -> P B) (m : P A) s =>
  match m s with
  | (Ret a, s') => f a s'
  | (Raise e, s') => (Raise e, s')
  end.

(** a method of a collaborator that changes the session *)
Definition invoke {A : Type} (f : Σ -> result A * Σ) : P A := fun s =>
  let (r, σ') := f (fst s) in (r, (σ', snd s)).

(** a method that reads the session *)
Definition inspect {A : Type} (f : Σ -> A) : P A := fun s => (Ret (f (fst s)), s).

Definition of_result {A : Type} (r : result A) : P A := fun s => (r, s).

(** [print(text, end=end_)] *)
Definition print (text end_ : string) : P unit := fun s =>
  (Ret tt, (fst s, snd s +:+ text +:+ end_)).

(** [try: body  except Exception as exception: handler] *)
Definition try_except_Exception {A : Type} (body : P A) (handler : exn -> P A)
    : P A := fun s =>
  match body s with
  | (Ret a, s') => (Ret a, s')
  | (Raise e, s') => if is_Exception e then handler e s' else (Raise e, s')
  end.

Fixpoint for_in {A : Type} (l : list A) (body : A -> P unit) : P unit :=
  match l with
  | [] => mret tt
  | x :: l' => body x;; for_in l' body
  end.

Definition _colored (is_colored : bool) (color msg : string) : string :=
  if is_colored then color +:+ msg +:+ RESET Fore else msg.

Definition print_section_header (is_colored : bool) (name : string) : P unit :=
  print (_colored is_colored (YELLOW Fore) name) newline.

Definition print_comment (is_colored : bool) (comment : string) : P unit :=
  print (_colored is_colored (CYAN Fore) comment) newline.

Definition print_key_value (is_colored : bool) (key value : string)
    (multi_line : bool) : P unit :=
  print (_colored is_colored (GREEN Fore) key) "";;
  print " =" "";;
  value_str ← (if multi_line
               then print "" newline;; mret (indent value "  ")
               else print " " "";; mret value);
  print value_str newline.

(** the body of the loop of [print_conf]; [continue] is the early return *)
Definition print_conf_key (is_colored : bool) (conf : ConfigSet Σ V)
    (key : string) : P unit :=
  known ← inspect (cs_contains conf key);
  if negb known then mret tt
  else
    key ← inspect (cs_primary_key conf key);
    '(as_str, multi_line) ←
      try_except_Exception
        (value ← invoke (cs_getitem conf key);
         of_result (stringify value))
        (fun exception =>
           mret (_colored is_colored (LIGHTRED_EX Fore)
                   ("# Exception: " +:+ repr exception), false));
    let multi_line :=
      if multi_line && negb (PyStr.contains "010" as_str) then false
      else multi_line in
    print_key_value is_colored key as_str multi_line.

Definition print_conf_loop (is_colored : bool) (conf : ConfigSet Σ V)
    (keys : list string) : P unit :=
  for_in keys (print_conf_key is_colored conf).

Definition print_conf (is_colored : bool) (conf : ConfigSet Σ V)
    (keys : list string) : P unit :=
  over ← (match keys with
          | [] => inspect (cs_iter conf)
          | _ :: _ => mret keys
          end);
  print_conf_loop is_colored conf over;;
  unused ← inspect (cs_unused conf);
  match unused, keys with
  | _ :: _, [] =>
      print_comment is_colored ("# !!! unused: " +:+ PyStr.join ", " unused)
  | _, _ => mret tt
  end.

(** loading and rendering raise nothing but subclasses of [Exception] *)
Definition loads_raise_exceptions_only (conf : ConfigSet Σ V) : Prop :=
  (forall key σ e σ',
     cs_getitem conf key σ = (Raise e, σ') -> is_Exception e = true)
  ∧ (forall v e, stringify v = Raise e -> is_Exception e = true).

End Printing.
End ShowConfig.

(** ** A configuration set for runs of the printers *)

Module Listing.
Import Tox ShowConfig.

(** placeholders for the escape sequences of [colorama] *)
Definition tags : Fore := mkFore "<Y>" "<C>" "<G>" "<R>" "<0>".

(** a prefix on the first line only: enough for one-line texts *)
Definition indent_first (text prefix : string) : string := prefix +:+ text.

(** every value is its own text and is called multi-line *)
Definition verbatim (v : string) : result (string * bool) := Ret (v, true).

Definition repr_name (e : exn) : string :=
  match e with
  | Skip r => "Skip(" +:+ r +:+ ")"
  | Recreate r => "Recreate(" +:+ r +:+ ")"
  | SystemExit _ => "SystemExit"
  | ReError p => "error(" +:+ p +:+ ")"
  | Failure what => what +:+ "()"
  end.

(** a set with the keys [base_python] (alias [basepython]) and [commands];
    loading [base_python] raises [failure]; the state counts the loads *)
Definition conf_failing (failure : exn) : ConfigSet nat string :=
  mkConfigSet
    (fun _ => ["base_python"; "commands"])
    (fun key _ =>
       bool_decide (key ∈ ["base_python"; "basepython"; "commands"]))
    (fun key _ => if String.eqb key "basepython" then "base_python" else key)
    (fun key n =>
       if String.eqb key "base_python" then (Raise failure, S n)
       else (Ret "pytest", S n))
    (fun _ => ["deps"]).

End Listing.

(** * Properties *)

(** ** Dictionaries *)

Section DictFacts.
Context {K V : Type} `{EqDecision K}.
Implicit Types (d : list (K * V)) (k : K) (v : V).

Lemma get_set_eq d k v : PyDict.get k (PyDict.set k v d) = Some v.
Proof.
  induction d as [|[k' v'] d IH]; simpl.
  - by rewrite decide_True.
  - destruct (decide (k' = k)) as [->|Hne]; simpl.
    + by rewrite decide_True.
    + by rewrite decide_False.
Qed.

Lemma get_set_ne d k k' v :
  k ≠ k' -> PyDict.get k' (PyDict.set k v d) = PyDict.get k' d.
Proof.
  intros Hne. induction d as [|[k0 v0] d IH]; simpl.
  - by rewrite decide_False.
  - destruct (decide (k0 = k)) as [->|Hne0]; simpl.
    + by rewrite !decide_False.
    + destruct (decide (k0 = k')); [done | apply IH].
Qed.

Lemma get_Some_keys d k : is_Some (PyDict.get k d) <-> k ∈ PyDict.keys d.
Proof.
  induction d as [|[k' v'] d IH]; simpl.
  - split; [intros [? [=]] | by intros ?%elem_of_nil].
  - rewrite elem_of_cons. destruct (decide (k' = k)) as [->|Hne]; simpl.
    + split; eauto.
    + rewrite IH. split; [by right | intros [?|?]; congruence].
Qed.

Lemma get_None_keys d k : PyDict.get k d = None <-> k ∉ PyDict.keys d.
Proof.
  rewrite <- get_Some_keys, eq_None_not_Some. tauto.
Qed.

Lemma keys_set_old d k v :
  k ∈ PyDict.keys d -> PyDict.keys (PyDict.set k v d) = PyDict.keys d.
Proof.
  induction d as [|[k' v'] d IH]; simpl.
  - by intros ?%elem_of_nil.
  - intros Hin. destruct (decide (k' = k)) as [->|Hne]; simpl; [done|].
    f_equal. apply IH. apply elem_of_cons in Hin as [?|?]; congruence.
Qed.

Lemma keys_set_new d k v :
  k ∉ PyDict.keys d -> PyDict.keys (PyDict.set k v d) = PyDict.keys d ++ [k].
Proof.
  induction d as [|[k' v'] d IH]; simpl; [done|].
  intros [Hne Hnin]%not_elem_of_cons.
  rewrite decide_False by done. simpl. f_equal. by apply IH.
Qed.



End DictFacts.

(** ** De-duplication *)

Lemma dedup_first_ext (s1 s2 l : list string) :
  (forall x, x ∈ s1 <-> x ∈ s2) -> dedup_first s1 l = dedup_first s2 l.
Proof.
  revert s1 s2. induction l as [|x l IH]; intros s1 s2 Heq; simpl; [done|].
  destruct (decide (x ∈ s1)) as [H1|H1], (decide (x ∈ s2)) as [H2|H2];
    try (exfalso; apply Heq in H1 || apply Heq in H2; done).
  - by apply IH.
  - f_equal. apply IH. intros y. rewrite !elem_of_cons, Heq. tauto.
Qed.

Lemma elem_of_dedup_first (s l : list string) (x : string) :
  x ∈ dedup_first s l <-> x ∈ l ∧ x ∉ s.
Proof.
  revert s. induction l as [|y l IH]; intros s; simpl.
  - rewrite elem_of_nil. tauto.
  - destruct (decide (y ∈ s)) as [Hy|Hy].
    + rewrite IH, elem_of_cons. split; [tauto|].
      intros [[->|?] ?]; tauto.
    + rewrite !elem_of_cons, IH, not_elem_of_cons.
      destruct (decide (x = y)) as [->|Hne]; tauto.
Qed.

Lemma NoDup_dedup_first (s l : list string) : NoDup (dedup_first s l).
Proof.
  revert s. induction l as [|y l IH]; intros s; simpl; [constructor|].
  destruct (decide (y ∈ s)); [apply IH|].
  apply NoDup_cons. split; [|apply IH].
  rewrite elem_of_dedup_first, not_elem_of_cons. tauto.
Qed.

(** the owned entries come first; an inherited entry survives only when no
    owned entry equals it *)
Lemma dedup_first_app (s a b : list string) :
  dedup_first s (a ++ b) = dedup_first s a ++ dedup_first (a ++ s) b.
Proof.
  revert s. induction a as [|x a IH]; intros s; simpl; [done|].
  destruct (decide (x ∈ s)) as [Hx|Hx].
  - rewrite IH. f_equal. apply dedup_first_ext. set_solver.
  - simpl. f_equal. rewrite IH. f_equal. apply dedup_first_ext. set_solver.
Qed.

Lemma dedup_first_idem (s t l : list string) :
  dedup_first s (dedup_first t l) = dedup_first (s ++ t) l.
Proof.
  revert s t. induction l as [|x l IH]; intros s t; simpl; [done|].
  destruct (decide (x ∈ t)) as [Ht|Ht].
  - rewrite decide_True by set_solver. apply IH.
  - simpl. destruct (decide (x ∈ s)) as [Hs|Hs].
    + rewrite decide_True by set_solver. rewrite IH.
      apply dedup_first_ext. set_solver.
    + rewrite decide_False by set_solver. f_equal.
      rewrite IH. apply dedup_first_ext. set_solver.
Qed.

Lemma keys_add_keys (ks : list string) (d : list (string * unit)) :
  PyDict.keys (fold_left (fun acc k => PyDict.set k tt acc) ks d)
  = PyDict.keys d ++ dedup_first (PyDict.keys d) ks.
Proof.
  revert d. induction ks as [|x ks IH]; intros d; simpl.
  - by rewrite app_nil_r.
  - rewrite IH. destruct (decide (x ∈ PyDict.keys d)) as [Hx|Hx].
    + by rewrite keys_set_old.
    + rewrite keys_set_new by done. rewrite <- app_assoc. simpl.
      do 2 f_equal. apply dedup_first_ext. set_solver.
Qed.

Lemma keys_fromkeys (ks : list string) :
  PyDict.keys (PyDict.fromkeys ks) = dedup_first [] ks.
Proof. unfold PyDict.fromkeys. by rewrite keys_add_keys. Qed.

Lemma update_fromkeys (d d2 : list (string * unit)) :
  PyDict.update d d2
  = fold_left (fun acc k => PyDict.set k tt acc) (PyDict.keys d2) d.
Proof.
  unfold PyDict.update. revert d.
  induction d2 as [|[k u] d2 IH]; intros d; simpl; [done|].
  destruct u. apply IH.
Qed.

Lemma keys_update_fromkeys (a b : list string) :
  PyDict.keys (PyDict.update (PyDict.fromkeys a) (PyDict.fromkeys b))
  = dedup_first [] (a ++ b).
Proof.
  rewrite update_fromkeys, keys_add_keys, !keys_fromkeys, dedup_first_app.
  f_equal. rewrite dedup_first_idem. apply dedup_first_ext. intros y.
  rewrite !elem_of_app, !elem_of_dedup_first, elem_of_nil. tauto.
Qed.

(** ** The search path *)

(** C8.  [_make_path] joins, with the path separator, the owned directories
    followed by the inherited search path split on the separator, after
    de-duplicating them with the first occurrence winning: the owned entries
    in their order, then the inherited entries that are not owned, nothing
    twice, nothing lost.  For owned paths /a, /b and inherited "/b:/c" the
    result is "/a:/b:/c", in which /b occurs once. *)
Theorem make_path_dedup_first_join :
  (forall (proc : Tox.Process) (paths : list Tox.Path) (env : dict),
     let sep := Tox.os_pathsep proc in
     let owned := List.map Tox.path_str paths in
     let inherited := PyStr.split sep (default "" (PyDict.get "PATH" env)) in
     let survivors := dedup_first [] (owned ++ inherited) in
     Tox.make_path proc paths env = PyStr.join (String sep "") survivors
     ∧ survivors = dedup_first [] owned ++ dedup_first owned inherited
     ∧ NoDup survivors
     ∧ (forall x, x ∈ survivors <-> x ∈ owned ∨ x ∈ inherited))
  ∧ Tox.make_path Scenario.posix [["a"]; ["b"]] [("PATH", "/b:/c")] = "/a:/b:/c"
  ∧ PyStr.split ":" "/a:/b:/c" = ["/a"; "/b"; "/c"].
Proof.
  split; [|split; reflexivity].
  intros proc paths env sep owned inherited survivors. split_and!.
  - unfold Tox.make_path. fold sep owned inherited.
    by rewrite keys_update_fromkeys.
  - unfold survivors. rewrite dedup_first_app. f_equal.
    apply dedup_first_ext. intros y. by rewrite app_nil_r.
  - apply NoDup_dedup_first.
  - intros x. unfold survivors.
    rewrite elem_of_dedup_first, elem_of_app, elem_of_nil. tauto.
Qed.

(** ** Running computations *)

Import Tox.

Ltac unfold_monad :=
  unfold mbind, mret, M_bind, M_ret, raise, get_world, emit, modify in *.

Section Lifecycle.
Context {Σ : Type} `{Collaborators Σ}.
Variable cfg : Conf.
Implicit Types (w : World Σ).

Lemma try_finally_runs_fin {A} (body : M A) (fin : M unit) w :
  snd (try_finally body fin w) = snd (fin (snd (body w))).
Proof.
  unfold try_finally. destruct (body w) as [r w1]. simpl.
  by destruct (fin w1) as [[[]|e] w2].
Qed.

Lemma cache_reset_run w :
  cache_reset w
  = (Ret tt, set_trace (trace w ++ [CacheReset]) (set_cache ∅ w)).
Proof. reflexivity. Qed.

(** what [_clean] leaves when the cleaned flag was not set *)
Lemma clean_run_unset force w :
  rs_clean (_run_state w) = false ->
  _clean cfg force w
  = (Ret tt,
     mkWorld (mkRunState false true (rs_teardown (_run_state w)))
       (_paths_private w) (_hidden_outcomes w) (_env_vars w)
       (_execute_statuses w) (_interrupted w) ∅ (environ w) (heap w)
       (if fs_exists (env_dir cfg) (fs w)
        then fs_rmtree (env_dir cfg) (fs w) else fs w)
       (ext w)
       (trace w
        ++ (if fs_exists (env_dir cfg) (fs w)
            then [LogWarning ("remove tox env folder " ++ path_str (env_dir cfg));
                  Rmtree (env_dir cfg)]
            else [])
        ++ [CacheReset])).
Proof.
  intros Hc. unfold _clean. unfold_monad. rewrite Hc.
  destruct (fs_exists (env_dir cfg) (fs w)); simpl.
  - unfold set_trace, set_fs, set_cache, set_run_state, update_setup_clean.
    simpl. by rewrite <- !app_assoc.
  - unfold set_trace, set_fs, set_cache, set_run_state, update_setup_clean.
    simpl. done.
Qed.

Lemma clean_run_set force w :
  rs_clean (_run_state w) = true -> _clean cfg force w = (Ret tt, w).
Proof. intros Hc. unfold _clean. unfold_monad. by rewrite Hc. Qed.

Lemma elem_of_fs_rmtree (p q : Path) (files : FS) :
  q ∈ fs_rmtree p files <-> q ∈ files ∧ path_under p q = false.
Proof.
  unfold fs_rmtree. rewrite !list_elem_of_In, filter_In, negb_true_iff. done.
Qed.

Lemma path_under_refl (p : Path) : path_under p p = true.
Proof.
  induction p as [|x p IH]; simpl; [done|].
  by rewrite bool_decide_eq_true_2.
Qed.

(** C3 (as the code has it).  [_clean(force)] does nothing when the cleaned
    flag is set, whatever [force] is.  When the flag is not set it removes the
    environment directory with all that lies beneath it if the directory
    exists (and touches no file otherwise), resets the fingerprint cache, and
    sets setup_done to false and cleaned to true; [force] changes nothing. *)
Theorem clean_guard_ignores_force (force : bool) w :
  (rs_clean (_run_state w) = true -> _clean cfg force w = (Ret tt, w))
  ∧ (rs_clean (_run_state w) = false ->
     exists w',
       _clean cfg force w = (Ret tt, w')
       ∧ (fs_exists (env_dir cfg) (fs w) = true ->
          (forall q, q ∈ fs w' <-> q ∈ fs w ∧ path_under (env_dir cfg) q = false)
          ∧ fs_exists (env_dir cfg) (fs w') = false
          ∧ Rmtree (env_dir cfg) ∈ trace w')
       ∧ (fs_exists (env_dir cfg) (fs w) = false ->
          fs w' = fs w ∧ trace w' = trace w ++ [CacheReset])
       ∧ cache w' = ∅
       ∧ rs_setup (_run_state w') = false
       ∧ rs_clean (_run_state w') = true
       ∧ rs_teardown (_run_state w') = rs_teardown (_run_state w))
  ∧ _clean cfg force w = _clean cfg (negb force) w.
Proof.
  split_and!.
  - apply clean_run_set.
  - intros Hc. eexists. split; [by apply clean_run_unset|]. simpl.
    split_and!; try done.
    + intros He. rewrite He. split_and!.
      * intros q. apply elem_of_fs_rmtree.
      * unfold fs_exists. apply bool_decide_eq_false_2.
        rewrite elem_of_fs_rmtree, path_under_refl. by intros [_ ?].
      * set_solver.
    + intros He. by rewrite He.
  - reflexivity.
Qed.

Lemma handle_env_tmp_dir_run w :
  exists files tr,
    _handle_env_tmp_dir cfg w
    = (Ret tt, set_trace (trace w ++ tr) (set_fs files w))
    ∧ Obs.count_hook SetupWithEnv tr = 0
    ∧ (CacheReset ∉ tr)
    ∧ (forall msg, LogWarning msg ∉ tr).
Proof.
  unfold _handle_env_tmp_dir. unfold_monad.
  destruct (fs_exists (env_tmp_dir cfg) (fs w)
            && fs_nonempty (env_tmp_dir cfg) (fs w)); simpl.
  - eexists _, [_; _; _]. unfold set_trace, set_fs; simpl.
    rewrite <- !app_assoc. simpl. split_and!; [done|done|set_solver|set_solver].
  - eexists _, [_]. unfold set_trace, set_fs; simpl.
    split_and!; [done|done|set_solver|set_solver].
Qed.

(** the three answers of [_setup_env] *)
Lemma setup_env_run w :
  let conf := mkFingerprint (conf_name cfg) (type_name cfg) in
  match cache w !! "ToxEnv" with
  | None =>
      _setup_env cfg w
      = _handle_env_tmp_dir cfg (set_cache (<["ToxEnv" := conf]> (cache w)) w)
  | Some old =>
      if bool_decide (old = conf) then
        _setup_env cfg w = _handle_env_tmp_dir cfg w
      else
        _setup_env cfg w
        = (Raise (Recreate ("env type changed from " ++ fp_repr old
                            ++ " to " ++ fp_repr conf)), w)
  end.
Proof.
  intros conf. unfold _setup_env, cache_compare. unfold_monad.
  destruct (cache w !! "ToxEnv") as [old|] eqn:Hc; simpl; [|done].
  fold conf. by destruct (bool_decide (old = conf)).
Qed.

(** C5.  [_setup_env] raises [Recreate], with a reason that names the stored
    and the fresh fingerprint, exactly when a fingerprint is stored for the
    marker and differs from the fresh one [{name, type}]; the stored value is
    then left as it is.  When nothing is stored, the fresh fingerprint becomes
    the stored one and nothing is raised; when the stored one is equal,
    nothing is raised and the cache is unchanged. *)
Theorem setup_env_recreate_on_mismatch w :
  let conf := mkFingerprint (conf_name cfg) (type_name cfg) in
  (forall old,
     cache w !! "ToxEnv" = Some old -> old ≠ conf ->
     _setup_env cfg w
     = (Raise (Recreate ("env type changed from " ++ fp_repr old
                         ++ " to " ++ fp_repr conf)), w))
  ∧ (cache w !! "ToxEnv" = None ->
     fst (_setup_env cfg w) = Ret tt
     ∧ cache (snd (_setup_env cfg w)) !! "ToxEnv" = Some conf)
  ∧ (cache w !! "ToxEnv" = Some conf ->
     fst (_setup_env cfg w) = Ret tt
     ∧ cache (snd (_setup_env cfg w)) = cache w)
  ∧ (forall e,
     fst (_setup_env cfg w) = Raise e ->
     exists old reason,
       cache w !! "ToxEnv" = Some old ∧ old ≠ conf ∧ e = Recreate reason).
Proof.
  intros conf. pose proof (setup_env_run w) as Hrun.
  cbv zeta in Hrun. fold conf in Hrun.
  split_and!.
  - intros old Hold Hne. rewrite Hold in Hrun. cbv beta iota in Hrun.
    by rewrite bool_decide_eq_false_2 in Hrun.
  - intros Hnone. rewrite Hnone in Hrun. rewrite Hrun.
    destruct (handle_env_tmp_dir_run
                (set_cache (<["ToxEnv" := conf]> (cache w)) w))
      as (files & tr & -> & _). simpl. split; [done|].
    apply lookup_insert_eq.
  - intros Hsome. rewrite Hsome in Hrun. cbv beta iota in Hrun.
    rewrite bool_decide_eq_true_2 in Hrun by done. rewrite Hrun.
    by destruct (handle_env_tmp_dir_run w) as (files & tr & -> & _).
  - intros e He. destruct (cache w !! "ToxEnv") as [old|] eqn:Hc.
    + destruct (bool_decide (old = conf)) eqn:Hd.
      * rewrite Hrun in He.
        by destruct (handle_env_tmp_dir_run w) as (files & tr & Hh & _);
          rewrite Hh in He.
      * rewrite Hrun in He. simpl in He. injection He as <-.
        apply bool_decide_eq_false_1 in Hd. eauto.
    + rewrite Hrun in He.
      by destruct (handle_env_tmp_dir_run
                     (set_cache (<["ToxEnv" := conf]> (cache w)) w))
        as (files & tr & Hh & _); rewrite Hh in He.
Qed.

End Lifecycle.

(** ** Setup *)

Section Setup.
Context {Σ : Type} `{Collaborators Σ}.
Variable cfg : Conf.
Implicit Types (w : World Σ).

Lemma count_hook_app h (tr1 tr2 : list event) :
  Obs.count_hook h (tr1 ++ tr2) = Obs.count_hook h tr1 + Obs.count_hook h tr2.
Proof. unfold Obs.count_hook. by rewrite List.filter_app, length_app. Qed.

Lemma platform_check_world w : snd (_platform_check cfg w) = w.
Proof.
  unfold _platform_check.
  destruct (negb (bool_decide (conf_platform cfg = ""))); [|done].
  by destruct (re_fullmatch _ _) as [[]|].
Qed.

Lemma platform_check_indep w w' :
  fst (_platform_check cfg w) = fst (_platform_check cfg w').
Proof.
  unfold _platform_check.
  destruct (negb (bool_decide (conf_platform cfg = ""))); [|done].
  by destruct (re_fullmatch _ _) as [[]|].
Qed.

Lemma call_hook_run h w :
  call_hook h w
  = (match fst (run_hook h (_run_state w) (ext w)) with
     | None => Ret tt
     | Some e => Raise e
     end,
     set_trace (trace w ++ [HookCall h (_run_state w)])
       (set_ext (snd (run_hook h (_run_state w) (ext w))) w)).
Proof.
  unfold call_hook. by destruct (run_hook h (_run_state w) (ext w)) as [[e|] σ].
Qed.

Lemma clean_ret force w : fst (_clean cfg force w) = Ret tt.
Proof.
  destruct (rs_clean (_run_state w)) eqn:Hc.
  - by rewrite clean_run_set.
  - by rewrite clean_run_unset.
Qed.

Lemma clean_keeps_setup_unset force w :
  rs_setup (_run_state w) = false ->
  rs_setup (_run_state (snd (_clean cfg force w))) = false.
Proof.
  intros Hs. destruct (rs_clean (_run_state w)) eqn:Hc.
  - by rewrite clean_run_set.
  - by rewrite clean_run_unset.
Qed.

Lemma clean_trace force w :
  exists tr,
    trace (snd (_clean cfg force w)) = trace w ++ tr
    ∧ Obs.count_hook SetupWithEnv tr = 0.
Proof.
  destruct (rs_clean (_run_state w)) eqn:Hc.
  - rewrite clean_run_set by done. exists []. by rewrite app_nil_r.
  - rewrite clean_run_unset by done. simpl. eexists. split; [done|].
    by destruct (fs_exists (env_dir cfg) (fs w)).
Qed.

(** [_setup_env] returns, or raises [Recreate] and leaves the world as it
    was; it does not touch the run state and calls no hook *)
Lemma setup_env_cases w :
  (exists reason, _setup_env cfg w = (Raise (Recreate reason), w))
  ∨ (exists w1 tr,
       _setup_env cfg w = (Ret tt, w1)
       ∧ _run_state w1 = _run_state w
       ∧ ext w1 = ext w
       ∧ trace w1 = trace w ++ tr
       ∧ Obs.count_hook SetupWithEnv tr = 0).
Proof.
  pose proof (setup_env_run cfg w) as Hrun. cbv zeta in Hrun.
  destruct (cache w !! "ToxEnv") as [old|].
  - destruct (bool_decide _).
    + right. rewrite Hrun.
      destruct (handle_env_tmp_dir_run cfg w) as (files & tr & -> & Hc & _).
      by eexists _, tr.
    + left. eauto.
  - right. rewrite Hrun.
    destruct (handle_env_tmp_dir_run cfg
                (set_cache
                   (<["ToxEnv" := mkFingerprint (conf_name cfg) (type_name cfg)]>
                      (cache w)) w))
      as (files & tr & -> & Hc & _).
    by eexists _, tr.
Qed.

Lemma provision_run w :
  provision cfg w
  = match _setup_env cfg w with
    | (Ret _, w1) => call_hook SetupWithEnv w1
    | (Raise e, w1) => (Raise e, w1)
    end.
Proof. reflexivity. Qed.

(** one provisioning attempt keeps the run state and calls the installer
    hook at most once: once, unless the fingerprint check raised *)
Lemma provision_frame w :
  _run_state (snd (provision cfg w)) = _run_state w
  ∧ exists tr,
      trace (snd (provision cfg w)) = trace w ++ tr
      ∧ Obs.count_hook SetupWithEnv tr <= 1
      ∧ ((forall reason, fst (provision cfg w) ≠ Raise (Recreate reason)) ->
         Obs.count_hook SetupWithEnv tr = 1).
Proof.
  rewrite provision_run.
  destruct (setup_env_cases w) as [[reason ->]|(w1 & tr & -> & Hrs & _ & Htr & Hc)].
  - simpl. split; [done|]. exists []. rewrite app_nil_r.
    split_and!; [done|unfold Obs.count_hook; simpl; lia|].
    intros Hne. by destruct (Hne reason).
  - rewrite call_hook_run. simpl. split; [done|].
    exists (tr ++ [HookCall SetupWithEnv (_run_state w1)]).
    rewrite Htr, <- app_assoc, count_hook_app, Hc.
    split_and!; [done|unfold Obs.count_hook; simpl; lia|done].
Qed.

(** [setup] on an environment that is not set up and fits the platform *)
Lemma setup_run recreate w :
  rs_setup (_run_state w) = false ->
  fst (_platform_check cfg w) = Ret tt ->
  setup cfg recreate w
  = try_finally
      (fun w0 =>
         match provision cfg w0 with
         | (Ret _, w1) => _done_with_setup w1
         | (Raise (Recreate reason), w1) =>
             if negb (recreate || conf_recreate cfg)
             then retry cfg reason w1 else (Ret tt, w1)
         | (Raise e, w1) => (Raise e, w1)
         end)
      (update_setup_clean true false)
      (before_try cfg recreate w).
Proof.
  intros Hs Hp. unfold setup, before_try. unfold_monad. rewrite Hs. simpl.
  pose proof (platform_check_world w) as Hw.
  destruct (_platform_check cfg w) as [r w']. simpl in Hp, Hw. subst r w'.
  unfold try_except_else_finally.
  destruct (recreate || conf_recreate cfg); simpl.
  - pose proof (clean_ret false w) as Hc.
    destruct (_clean cfg false w) as [r w0]. simpl in Hc. subst r. simpl.
    unfold try_finally, provision. unfold_monad.
    destruct (_setup_env cfg w0) as [[[]|e] w1];
      [destruct (_setup_with_env w1) as [[[]|e] w2]|]; try done;
      by destruct e.
  - unfold try_finally, provision. unfold_monad.
    destruct (_setup_env cfg w) as [[[]|e] w1];
      [destruct (_setup_with_env w1) as [[[]|e] w2]|]; try done;
      by destruct e.
Qed.

Lemma before_try_keeps_setup_unset recreate w :
  rs_setup (_run_state w) = false ->
  rs_setup (_run_state (before_try cfg recreate w)) = false.
Proof.
  intros Hs. unfold before_try.
  destruct (recreate || conf_recreate cfg); [|done].
  by apply clean_keeps_setup_unset.
Qed.

(** X23.  A [setup] call on an environment that fits the platform leaves
    setup_done true and cleaned false, whether it returns or an exception of
    the provisioning phase or of a hook gets out (the run state never has
    both flags set before the call; the file-system calls, those of the
    clean before the [try] included, do not fail).  On an environment that
    is not set up the last step on every path is the flag update of the
    [finally].  Where the provisioning of the [try] raises nothing, the
    completion hook is called next, while setup_done is still false, and the
    flag update follows it. *)
Theorem setup_marks_done_on_every_exit (recreate : bool) w :
  rs_setup (_run_state w) && rs_clean (_run_state w) = false ->
  fst (_platform_check cfg w) = Ret tt ->
  let out := setup cfg recreate w in
  rs_setup (_run_state (snd out)) = true
  ∧ rs_clean (_run_state (snd out)) = false
  ∧ (rs_setup (_run_state w) = false ->
     (exists w2, snd out = snd (update_setup_clean true false w2))
     ∧ (forall w1,
          provision cfg (before_try cfg recreate w) = (Ret tt, w1) ->
          rs_setup (_run_state w1) = false
          ∧ trace (snd out) = trace w1 ++ [HookCall DoneWithSetup (_run_state w1)]
          ∧ fst out
            = match fst (run_hook DoneWithSetup (_run_state w1) (ext w1)) with
              | None => Ret tt
              | Some e => Raise e
              end)).
Proof.
  intros Hinv Hp out. unfold out.
  destruct (rs_setup (_run_state w)) eqn:Hs.
  { simpl in Hinv. unfold setup. unfold_monad. rewrite Hs. simpl.
    by split_and!. }
  rewrite setup_run by done.
  rewrite try_finally_runs_fin. split_and!; [done|done|]. intros _.
  split; [by eexists|].
  intros w1 Hprov. rewrite Hprov. split_and!.
  - pose proof (provision_frame (before_try cfg recreate w)) as [Hrs _].
    rewrite Hprov in Hrs. simpl in Hrs. rewrite Hrs.
    by apply before_try_keeps_setup_unset.
  - unfold _done_with_setup. by rewrite call_hook_run.
  - unfold try_finally. rewrite Hprov. unfold _done_with_setup.
    by rewrite call_hook_run.
Qed.

Lemma retry_run reason w :
  retry cfg reason w
  = provision cfg
      (snd (_clean cfg true
              (set_trace
                 (trace w ++ [LogWarning ("recreate env because " ++ reason)])
                 w))).
Proof.
  unfold retry, provision. unfold_monad.
  set (w1 := set_trace _ w).
  pose proof (clean_ret true w1) as Hc.
  destruct (_clean cfg true w1) as [r w2]. simpl in Hc. by subst r.
Qed.

(** C1 (as the code has it).  On an environment that is not set up and fits
    the platform, with the effective recreate flag off: when the
    provisioning of the [try] raises [Recreate], [setup] logs a warning, calls
    [_clean(force=True)] and makes exactly one more provisioning attempt;
    whatever that attempt answers is the answer of [setup], so a second
    [Recreate] gets out and nothing is tried again.  On that exit too the
    [finally] sets setup_done to true and cleaned to false. *)
Theorem setup_retries_once_after_recreate (recreate : bool) w reason w1 :
  rs_setup (_run_state w) = false ->
  fst (_platform_check cfg w) = Ret tt ->
  recreate || conf_recreate cfg = false ->
  provision cfg w = (Raise (Recreate reason), w1) ->
  let warned :=
    set_trace (trace w1 ++ [LogWarning ("recreate env because " ++ reason)]) w1 in
  let again := provision cfg (snd (_clean cfg true warned)) in
  retry cfg reason w1 = again
  ∧ setup cfg recreate w
    = (fst again, snd (update_setup_clean true false (snd again)))
  ∧ (exists tr,
       trace (snd (setup cfg recreate w))
       = trace w1 ++ LogWarning ("recreate env because " ++ reason) :: tr
       ∧ Obs.count_hook SetupWithEnv tr <= 1)
  ∧ (forall reason2,
       fst again = Raise (Recreate reason2) ->
       fst (setup cfg recreate w) = Raise (Recreate reason2))
  ∧ rs_setup (_run_state (snd (setup cfg recreate w))) = true
  ∧ rs_clean (_run_state (snd (setup cfg recreate w))) = false.
Proof.
  intros Hs Hp Hr Hprov warned again.
  assert (Hsetup : setup cfg recreate w
                   = (fst again, snd (update_setup_clean true false (snd again)))).
  { rewrite setup_run by done. unfold before_try. rewrite Hr.
    unfold try_finally. rewrite Hprov. simpl. rewrite retry_run.
    fold warned. fold again. by destruct again. }
  split_and!; [apply retry_run|done| |by rewrite Hsetup|by rewrite Hsetup..].
  rewrite Hsetup. simpl.
  destruct (clean_trace true warned) as (tr1 & Htr1 & Hc1).
  destruct (provision_frame (snd (_clean cfg true warned)))
    as (_ & tr2 & Htr2 & Hc2 & _).
  exists (tr1 ++ tr2). fold again in Htr2. rewrite Htr2, Htr1. simpl.
  rewrite <- !app_assoc. split; [done|]. rewrite count_hook_app. lia.
Qed.

(** C2 (as the code has it).  Once setup_done is true, every [setup] call,
    with any [recreate] argument, returns and leaves the world, trace
    included, as it was: no clean, no hook.  So after a first call that got
    past the platform check a second call does nothing, and the installer
    hook has been called across both as often as in the first call alone:
    once, when the provisioning of the first call's [try] raised no
    [Recreate]. *)
Theorem setup_done_is_noop (r1 r2 : bool) w :
  (rs_setup (_run_state w) = true -> setup cfg r2 w = (Ret tt, w))
  ∧ (rs_setup (_run_state w) = false ->
     fst (_platform_check cfg w) = Ret tt ->
     let w1 := snd (setup cfg r1 w) in
     setup cfg r2 w1 = (Ret tt, w1)
     ∧ ((forall reason,
           fst (provision cfg (before_try cfg r1 w)) ≠ Raise (Recreate reason)) ->
        Obs.count_hook SetupWithEnv (trace (snd (setup cfg r2 w1)))
        = Obs.count_hook SetupWithEnv (trace w) + 1)).
Proof.
  assert (Hnoop : forall w', rs_setup (_run_state w') = true ->
                             setup cfg r2 w' = (Ret tt, w')).
  { intros w' Hs. unfold setup. unfold_monad. by rewrite Hs. }
  split; [apply Hnoop|]. intros Hs Hp w1.
  assert (Hdone : rs_setup (_run_state w1) = true).
  { unfold w1. rewrite setup_run by done. by rewrite try_finally_runs_fin. }
  split; [by apply Hnoop|]. intros Hne. rewrite Hnoop by done. simpl.
  unfold w1. rewrite setup_run by done. rewrite try_finally_runs_fin.
  assert (Hw0 : exists tr0, trace (before_try cfg r1 w) = trace w ++ tr0
                            ∧ Obs.count_hook SetupWithEnv tr0 = 0).
  { unfold before_try. destruct (r1 || conf_recreate cfg).
    - apply clean_trace.
    - exists []. by rewrite app_nil_r. }
  destruct Hw0 as (tr0 & Htr0 & Hc0).
  destruct (provision_frame (before_try cfg r1 w)) as (_ & tr & Htr & _ & Hc).
  specialize (Hc Hne).
  destruct (provision cfg (before_try cfg r1 w)) as [[[]|e] w2] eqn:Hprov;
    simpl in Htr.
  - unfold _done_with_setup. rewrite call_hook_run. simpl.
    rewrite Htr, Htr0, !count_hook_app, Hc0, Hc. unfold Obs.count_hook. simpl. lia.
  - destruct e; try (simpl; rewrite Htr, Htr0, !count_hook_app, Hc0, Hc; lia).
    by destruct (Hne reason).
Qed.

End Setup.

(** ** Environment variables *)

Section EnvVars.
Context {Σ : Type} `{Collaborators Σ}.
Variable cfg : Conf.
Variable proc : Process.
Implicit Types (w : World Σ) (d : dict).
#[local] Existing Instances M_ret M_bind.

Lemma compile_all_run (l : list string) w :
  compile_all (List.filter (PyStr.contains "*") l) w
  = (match Resolver.compile_globs l with
     | Some gs => Ret gs
     | None => fst (compile_all (List.filter (PyStr.contains "*") l) w)
     end, w)
  ∧ (Resolver.compile_globs l = None ->
     exists pat, fst (compile_all (List.filter (PyStr.contains "*") l) w)
                 = Raise (ReError pat)).
Proof.
  induction l as [|e l [IH1 IH2]]; simpl; [done|].
  destruct (PyStr.contains "*" e); simpl; [|done].
  destruct (Re.compile (PyStr.replace "*" ".*" e)) as [r|]; simpl.
  - unfold_monad. rewrite IH1.
    destruct (Resolver.compile_globs l) as [gs|]; simpl; [done|].
    destruct (IH2 eq_refl) as [pat Hpat]. rewrite Hpat. split; [done|]. eauto.
  - split; [done|]. eauto.
Qed.

Lemma dict_setitem_last (h : list dict) d k v w :
  heap w = h ++ [d] ->
  dict_setitem (length h) k v w = (Ret tt, set_heap (h ++ [PyDict.set k v d]) w).
Proof.
  intros Hh. unfold dict_setitem. unfold_monad. rewrite Hh. do 2 f_equal.
  apply list_eq. intros i. rewrite list_lookup_alter.
  destruct (decide (i = length h)) as [->|Hne].
  - rewrite decide_True by done. by rewrite !list_lookup_middle.
  - rewrite decide_False by done.
    destruct (decide (i < length h)) as [Hlt|Hge].
    + by rewrite !lookup_app_l.
    + rewrite !lookup_ge_None_2; [done|..]; rewrite length_app; simpl; lia.
Qed.

Lemma dict_at_last (h : list dict) d w :
  heap w = h ++ [d] -> dict_at (length h) w = d.
Proof. intros Hh. unfold dict_at. by rewrite Hh, list_lookup_middle. Qed.

Lemma for_each_literals (l : list string) (h : list dict) d w :
  heap w = h ++ [d] ->
  for_each l (fun env =>
    w ← get_world;
    match PyDict.get env (environ w) with
    | Some value => dict_setitem (length h) env value
    | None => mret tt
    end) w
  = (Ret tt, set_heap (h ++ [Resolver.copy_literals l (environ w) d]) w).
Proof.
  revert d w. induction l as [|e l IH]; intros d w Hh; simpl.
  - unfold_monad. rewrite <- Hh. by destruct w.
  - unfold_monad. destruct (PyDict.get e (environ w)) as [v|] eqn:He.
    + rewrite (dict_setitem_last h d) by done.
      rewrite (IH (PyDict.set e v d)) by done.
      unfold Resolver.copy_literals. simpl. by rewrite ?He.
    + rewrite (IH d) by done.
      unfold Resolver.copy_literals. simpl. by rewrite ?He.
Qed.

Lemma for_each_globs (globs : list Re.regex) (items : dict)
    (h : list dict) d w :
  heap w = h ++ [d] ->
  for_each items (fun item =>
    if existsb (fun g => Re.is_match g (fst item)) globs
    then dict_setitem (length h) (fst item) (snd item)
    else mret tt) w
  = (Ret tt, set_heap (h ++ [Resolver.copy_globs globs items d]) w).
Proof.
  revert d w. induction items as [|[k v] items IH]; intros d w Hh; simpl.
  - unfold_monad. rewrite <- Hh. by destruct w.
  - unfold_monad. unfold Resolver.copy_globs, Resolver.matches_any.
    cbn [fst snd fold_left].
    destruct (existsb (fun g => Re.is_match g k) globs).
    + rewrite (dict_setitem_last h d) by done.
      by rewrite (IH (PyDict.set k v d)).
    + by rewrite (IH d).
Qed.

Lemma for_each_overrides (ovs : list (string * (dict -> string)))
    (h : list dict) d w :
  heap w = h ++ [d] ->
  for_each ovs (fun entry =>
    w ← get_world;
    dict_setitem (length h) (fst entry) (snd entry (dict_at (length h) w))) w
  = (Ret tt, set_heap (h ++ [Resolver.apply_overrides ovs d]) w).
Proof.
  revert d w. induction ovs as [|[k load] ovs IH]; intros d w Hh; simpl.
  - unfold_monad. rewrite <- Hh. by destruct w.
  - unfold_monad. rewrite (dict_at_last h d) by done.
    rewrite (dict_setitem_last h d) by done.
    by rewrite (IH (PyDict.set k (load d) d)).
Qed.

Lemma copy_globs_nil (items : dict) d : Resolver.copy_globs [] items d = d.
Proof.
  unfold Resolver.copy_globs. revert d.
  induction items as [|kv l IH]; intros d; simpl; [done|apply IH].
Qed.

(** on a first access, with globs that compile, the property allocates one
    mapping object, fills it as [Resolver.resolve] says and memoizes it *)
Lemma environment_variables_first_run w (globs : list Re.regex) :
  _env_vars w = None ->
  Resolver.compile_globs (conf_pass_env cfg proc) = Some globs ->
  _environment_variables cfg proc w
  = (Ret (length (heap w)),
     set_heap
       (heap w
        ++ [Resolver.resolve (Resolver.literals_of (conf_pass_env cfg proc))
              globs (make_path proc (_paths_private w) (environ w))
              (set_env cfg) (environ w)])
       (set_env_vars (Some (length (heap w))) w)).
Proof.
  intros Hnone Hglobs. unfold _environment_variables.
  unfold mbind at 1, M_bind at 1, get_world at 1. rewrite Hnone.
  unfold mbind at 1, M_bind at 1, alloc_dict. simpl.
  unfold mbind at 1, M_bind at 1.
  destruct (compile_all_run (conf_pass_env cfg proc) (set_heap (heap w ++ [[]]) w))
    as [-> _].
  rewrite Hglobs.
  set (w1 := set_heap (heap w ++ [[]]) w).
  unfold mbind at 1, M_bind at 1.
  rewrite (for_each_literals _ (heap w) []) by done.
  unfold mbind at 1, M_bind at 1.
  assert (Hg : (match globs with
                | [] => mret tt
                | _ :: _ =>
                    w0 ← get_world;
                    for_each (environ w0) (fun item =>
                      if existsb (fun g => Re.is_match g (fst item)) globs
                      then dict_setitem (length (heap w)) (fst item) (snd item)
                      else mret tt)
                end)
               (set_heap (heap w ++ [Resolver.copy_literals
                   (List.filter (fun e => negb (PyStr.contains "*" e))
                                (conf_pass_env cfg proc)) (environ w1) []]) w1)
               = (Ret tt,
                  set_heap (heap w ++ [Resolver.copy_globs globs (environ w)
                     (Resolver.copy_literals
                        (Resolver.literals_of (conf_pass_env cfg proc))
                        (environ w) [])]) w)).
  { destruct globs as [|g globs'].
    - unfold_monad. by rewrite copy_globs_nil.
    - unfold mbind, M_bind, get_world.
      by rewrite (for_each_globs _ _ (heap w) _) by done. }
  rewrite Hg. unfold _make_path. unfold_monad. cbv beta iota zeta.
  rewrite (dict_setitem_last (heap w) _) by done.
  match goal with
  | |- context [for_each (set_env cfg) _ ?W] =>
      pose proof (for_each_overrides (set_env cfg) (heap w) _ W eq_refl) as Hov
  end.
  unfold_monad. rewrite Hov. reflexivity.
Qed.

End EnvVars.

(** ** Regular expressions *)

Lemma string_app_cons (x : ascii) (a b : string) :
  String x a +:+ b = String x (a +:+ b).
Proof. reflexivity. Qed.

Lemma string_app_assoc (a b c : string) : (a +:+ b) +:+ c = a +:+ (b +:+ c).
Proof.
  induction a as [|x a IH]; [done|]. rewrite !string_app_cons. by f_equal.
Qed.







(** ** The mapping, key by key *)










Lemma elem_of_sorted_insert (x y : string) (l : list string) :
  y ∈ sorted_insert x l <-> y = x ∨ y ∈ l.
Proof.
  induction l as [|z l IH]; simpl.
  - by rewrite list_elem_of_singleton, elem_of_nil; tauto.
  - destruct (String.leb x z); rewrite !elem_of_cons; [tauto|].
    rewrite IH. tauto.
Qed.

Lemma elem_of_sorted (y : string) (l : list string) : y ∈ sorted l <-> y ∈ l.
Proof.
  induction l as [|x l IH]; simpl; [done|].
  rewrite elem_of_sorted_insert, elem_of_cons, IH. tauto.
Qed.

Lemma elem_of_literals_of (n : string) (l : list string) :
  n ∈ Resolver.literals_of l <-> n ∈ l ∧ PyStr.contains "*" n = false.
Proof.
  unfold Resolver.literals_of.
  rewrite !list_elem_of_In, filter_In, negb_true_iff. done.
Qed.



Section EnvVarsOrder.
Context {Σ : Type} `{Collaborators Σ}.
Variable cfg : Conf.
Variable proc : Process.
Implicit Types (w : World Σ) (d : dict).




End EnvVarsOrder.

Section PathsSetter.
Context {Σ : Type} `{Collaborators Σ}.
Variable cfg : Conf.
Variable proc : Process.
Implicit Types (w : World Σ) (d : dict).

Lemma set_paths_run_memoized (value : list Path) w (a : nat) :
  _env_vars w = Some a ->
  set__paths proc value w
  = (Ret tt,
     set_heap
       (alter (PyDict.set "PATH" (make_path proc value (environ w))) a (heap w))
       (set_paths_private value w)).
Proof.
  intros Ha. unfold set__paths, _make_path, dict_setitem. unfold_monad.
  simpl. by rewrite Ha.
Qed.

(** C7.  When the mapping is memoized, assigning the owned path list
    recomputes the search path from the new list and writes it under PATH
    into the memoized mapping object itself: the object stays the memoized
    one, every other key keeps its value and its place, no other object
    changes, and the next access to the property answers that same object
    without computing anything. *)
Theorem set_paths_rewrites_path_in_place (value : list Path) w (a : nat) :
  _env_vars w = Some a ->
  a < length (heap w) ->
  let out := set__paths proc value w in
  let path := make_path proc value (environ w) in
  fst out = Ret tt
  ∧ _paths_private (snd out) = value
  ∧ _env_vars (snd out) = Some a
  ∧ dict_at a (snd out) = PyDict.set "PATH" path (dict_at a w)
  ∧ PyDict.get "PATH" (dict_at a (snd out)) = Some path
  ∧ (forall k, k ≠ "PATH" ->
       PyDict.get k (dict_at a (snd out)) = PyDict.get k (dict_at a w))
  ∧ ("PATH" ∈ PyDict.keys (dict_at a w) ->
     PyDict.keys (dict_at a (snd out)) = PyDict.keys (dict_at a w))
  ∧ length (heap (snd out)) = length (heap w)
  ∧ (forall b, b ≠ a -> heap (snd out) !! b = heap w !! b)
  ∧ environ (snd out) = environ w
  ∧ trace (snd out) = trace w
  ∧ _environment_variables cfg proc (snd out) = (Ret a, snd out).
Proof.
  intros Ha Hlt out path. unfold out. rewrite (set_paths_run_memoized value w a Ha).
  fold path. simpl.
  destruct (lookup_lt_is_Some_2 (heap w) a Hlt) as [d Hd].
  assert (Hat : dict_at a
                  (set_heap (alter (PyDict.set "PATH" path) a (heap w))
                     (set_paths_private value w))
                = PyDict.set "PATH" path (dict_at a w)).
  { unfold dict_at. simpl. by rewrite list_lookup_alter_eq, Hd. }
  split_and!; try done.
  - rewrite Hat. apply get_set_eq.
  - intros k Hk. rewrite Hat. by apply get_set_ne.
  - intros Hin. rewrite Hat. by apply keys_set_old.
  - apply length_alter.
  - intros b Hb. by apply list_lookup_alter_ne.
  - unfold _environment_variables. unfold_monad. simpl. by rewrite Ha.
Qed.

End PathsSetter.

Section GlobMatching.
Context {Σ : Type} `{Collaborators Σ}.
Variable cfg : Conf.
Variable proc : Process.
Implicit Types (w : World Σ) (d : dict).


End GlobMatching.

(** ** What every step keeps *)

Section KeepsRules.
Context {Σ : Type} `{Collaborators Σ}.
Variable R : World Σ -> World Σ -> Prop.
Hypothesis R_refl : forall w, R w w.
Hypothesis R_trans : forall w1 w2 w3, R w1 w2 -> R w2 w3 -> R w1 w3.
#[local] Existing Instances M_ret M_bind.

Lemma keeps_ret {A} (a : A) : Keeps.keeps R (mret a).
Proof. intros w. apply R_refl. Qed.

Lemma keeps_raise {A} (e : exn) : Keeps.keeps R (raise (A := A) e).
Proof. intros w. apply R_refl. Qed.

Lemma keeps_get_world : Keeps.keeps R get_world.
Proof. intros w. apply R_refl. Qed.

Lemma keeps_modify (f : World Σ -> World Σ) :
  (forall w, R w (f w)) -> Keeps.keeps R (modify f).
Proof. intros Hf w. apply Hf. Qed.

Lemma keeps_bind {A B} (m : M A) (f : A -> M B) :
  Keeps.keeps R m -> (forall a, Keeps.keeps R (f a)) -> Keeps.keeps R (m ≫= f).
Proof.
  intros Hm Hf w. unfold mbind, M_bind. specialize (Hm w).
  destruct (m w) as [[a|e] w1]; simpl in *; [|done].
  eapply R_trans; [done|apply Hf].
Qed.

Lemma keeps_try_finally {A} (body : M A) (fin : M unit) :
  Keeps.keeps R body -> Keeps.keeps R fin -> Keeps.keeps R (try_finally body fin).
Proof.
  intros Hb Hf w. rewrite try_finally_runs_fin.
  eapply R_trans; [apply Hb|apply Hf].
Qed.

Lemma keeps_try_except_else_finally
    (body : M unit) (handler : exn -> option (M unit)) (orelse fin : M unit) :
  Keeps.keeps R body ->
  (forall e h, handler e = Some h -> Keeps.keeps R h) ->
  Keeps.keeps R orelse -> Keeps.keeps R fin ->
  Keeps.keeps R (try_except_else_finally body handler orelse fin).
Proof.
  intros Hb Hh Ho Hf. apply keeps_try_finally; [|done]. intros w.
  specialize (Hb w). destruct (body w) as [[[]|e] w1]; simpl in *.
  - eapply R_trans; [done|apply Ho].
  - destruct (handler e) as [h|] eqn:He; [|done].
    eapply R_trans; [done|by apply (Hh e h)].
Qed.

Lemma keeps_for_each {A} (l : list A) (body : A -> M unit) :
  (forall x, Keeps.keeps R (body x)) -> Keeps.keeps R (for_each l body).
Proof.
  intros Hb. induction l as [|x l IH]; simpl.
  - apply keeps_ret.
  - apply keeps_bind; [apply Hb|]. by intros _.
Qed.

End KeepsRules.

Ltac keeps_step R_refl R_trans :=
  first
    [ apply (keeps_bind _ R_trans); [|intros ?]
    | apply (keeps_ret _ R_refl)
    | apply (keeps_raise _ R_refl)
    | apply (keeps_get_world _ R_refl)
    | apply (keeps_for_each _ R_refl R_trans); intros ?
    | apply (keeps_try_finally _ R_trans)
    | match goal with
      | |- Keeps.keeps _ (if ?b then _ else _) => destruct b
      | |- Keeps.keeps _ (match ?x with _ => _ end) => destruct x
      end ].

(** ** Interruption *)

Section Quiet.
Context {Σ : Type} `{Collaborators Σ}.
Variable cfg : Conf.
Variable proc : Process.
Implicit Types (w : World Σ).
#[local] Existing Instances M_ret M_bind.

Lemma quiet_refl w : quiet w w.
Proof. by split. Qed.

Lemma quiet_trans w1 w2 w3 : quiet w1 w2 -> quiet w2 w3 -> quiet w1 w3.
Proof. intros [H1 H2] [H3 H4]. split; [tauto|congruence]. Qed.

Lemma count_executor_calls_snoc (tr : list event) (e : event) :
  Obs.is_executor_call e = false ->
  Obs.count_executor_calls (tr ++ [e]) = Obs.count_executor_calls tr.
Proof.
  intros He. unfold Obs.count_executor_calls.
  rewrite List.filter_app, length_app. simpl. rewrite He. simpl. lia.
Qed.

Lemma quiet_emit (e : event) :
  Obs.is_executor_call e = false -> Keeps.keeps (Σ := Σ) quiet (emit e).
Proof.
  intros He w. split; [done|]. simpl. by apply count_executor_calls_snoc.
Qed.

Ltac quiet_auto :=
  repeat first
    [ keeps_step quiet_refl quiet_trans
    | apply quiet_emit; reflexivity
    | apply keeps_modify; intros ?; by split ].

Lemma quiet_call_hook h : Keeps.keeps (Σ := Σ) quiet (call_hook h).
Proof.
  intros w. rewrite call_hook_run. split; [done|]. simpl.
  by apply count_executor_calls_snoc.
Qed.

Lemma quiet_platform_check : Keeps.keeps (Σ := Σ) quiet (_platform_check cfg).
Proof. intros w. rewrite platform_check_world. apply quiet_refl. Qed.

Lemma quiet_cache_compare c m : Keeps.keeps (Σ := Σ) quiet (cache_compare c m).
Proof. intros w. unfold cache_compare. by destruct (cache w !! m). Qed.

Lemma quiet_handle_env_tmp_dir : Keeps.keeps (Σ := Σ) quiet (_handle_env_tmp_dir cfg).
Proof. unfold _handle_env_tmp_dir. quiet_auto. Qed.

Lemma quiet_setup_env : Keeps.keeps (Σ := Σ) quiet (_setup_env cfg).
Proof.
  unfold _setup_env. apply (keeps_bind _ quiet_trans); [apply quiet_cache_compare|].
  intros [eq old]. quiet_auto; apply quiet_handle_env_tmp_dir.
Qed.

Lemma quiet_clean force : Keeps.keeps (Σ := Σ) quiet (_clean cfg force).
Proof. unfold _clean, cache_reset, update_setup_clean. quiet_auto. Qed.

Lemma quiet_setup recreate : Keeps.keeps (Σ := Σ) quiet (setup cfg recreate).
Proof.
  unfold setup. apply (keeps_bind _ quiet_trans); [apply (keeps_get_world _ quiet_refl)|].
  intros w0. destruct (negb _); [|apply (keeps_ret _ quiet_refl)].
  apply (keeps_bind _ quiet_trans); [apply quiet_platform_check|]. intros _.
  apply (keeps_bind _ quiet_trans).
  { destruct (recreate || conf_recreate cfg);
      [apply quiet_clean|apply (keeps_ret _ quiet_refl)]. }
  intros _.
  apply (keeps_try_except_else_finally _ quiet_trans).
  - apply (keeps_bind _ quiet_trans); [apply quiet_setup_env|].
    intros _. apply quiet_call_hook.
  - intros e h He. destruct e; try done. injection He as <-.
    destruct (negb _); [|apply (keeps_ret _ quiet_refl)].
    apply (keeps_bind _ quiet_trans); [by apply quiet_emit|]. intros _.
    apply (keeps_bind _ quiet_trans); [apply quiet_clean|]. intros _.
    apply (keeps_bind _ quiet_trans); [apply quiet_setup_env|]. intros _.
    apply quiet_call_hook.
  - apply quiet_call_hook.
  - unfold update_setup_clean. quiet_auto.
Qed.

Lemma quiet_teardown : Keeps.keeps (Σ := Σ) quiet teardown.
Proof.
  unfold teardown, update_teardown, _teardown.
  quiet_auto; apply quiet_call_hook.
Qed.

Lemma quiet_interrupt : Keeps.keeps (Σ := Σ) quiet (interrupt cfg).
Proof. unfold interrupt. quiet_auto. Qed.

Lemma quiet_compile_all (l : list string) : Keeps.keeps (Σ := Σ) quiet (compile_all l).
Proof. induction l as [|e l IH]; simpl; quiet_auto. apply IH. Qed.

Lemma quiet_environment_variables :
  Keeps.keeps (Σ := Σ) quiet (_environment_variables cfg proc).
Proof.
  unfold _environment_variables, _make_path, dict_setitem.
  apply (keeps_bind _ quiet_trans); [apply (keeps_get_world _ quiet_refl)|].
  intros w0. destruct (_env_vars w0); [apply (keeps_ret _ quiet_refl)|].
  apply (keeps_bind _ quiet_trans); [by intros w; split|]. intros a.
  apply (keeps_bind _ quiet_trans); [apply quiet_compile_all|]. intros globs.
  quiet_auto.
Qed.

Lemma quiet_set_paths value : Keeps.keeps (Σ := Σ) quiet (set__paths proc value).
Proof. unfold set__paths, _make_path, dict_setitem. quiet_auto. Qed.

Lemma quiet_run_plain (c : plain_call) : Keeps.keeps (Σ := Σ) quiet (run_plain cfg proc c).
Proof.
  destruct c; simpl.
  - apply quiet_setup.
  - apply quiet_teardown.
  - apply quiet_interrupt.
  - apply quiet_set_paths.
  - apply (keeps_bind _ quiet_trans); [apply quiet_environment_variables|].
    intros _. apply (keeps_ret _ quiet_refl).
Qed.

Lemma interrupt_sets_flag w : _interrupted (snd (interrupt cfg w)) = true.
Proof.
  unfold interrupt. unfold_monad. simpl.
  set (w1 := set_interrupted true _).
  assert (Hw1 : _interrupted w1 = true) by done.
  assert (Hk : Keeps.keeps (Σ := Σ) quiet
                 (for_each (PyDict.values (_execute_statuses w1))
                    (fun status (w : World Σ) =>
                       let (r, w') :=
                         (Ret tt, set_ext (status_interrupt (st_id status) (ext w)) w) in
                       match r with
                       | Ret _ =>
                           (Ret tt, set_trace (trace w' ++ [StatusInterrupt (st_id status)]) w')
                       | Raise e => (Raise e, w')
                       end))).
  { apply (keeps_for_each _ quiet_refl quiet_trans). intros st w0. split; [done|].
    simpl. by apply count_executor_calls_snoc. }
  destruct (Hk w1) as [Hi _].
  destruct (for_each _ _ w1) as [[[]|e] w2]; by apply Hi.
Qed.

Lemma execute_async_enter_interrupted cmd stdin show cwd run_id w :
  _interrupted w = true ->
  execute_async_enter cfg proc cmd stdin show cwd run_id w
  = (Raise (SystemExit (-2)), w).
Proof. intros Hi. unfold execute_async_enter. unfold_monad. by rewrite Hi. Qed.

Lemma execute_async_interrupted {A} cmd stdin show cwd run_id
    (body : ExecuteStatus -> M A) w :
  _interrupted w = true ->
  execute_async cfg proc cmd stdin show cwd run_id body w
  = (Raise (SystemExit (-2)), w).
Proof.
  intros Hi. unfold execute_async. unfold mbind at 1, M_bind at 1.
  by rewrite execute_async_enter_interrupted.
Qed.

Lemma run_call_quiet_when_interrupted (c : call) w :
  _interrupted w = true -> quiet w (snd (run_call cfg proc c w)).
Proof.
  intros Hi. destruct c as [c|cmd stdin show cwd run_id body]; simpl.
  - apply quiet_run_plain.
  - rewrite execute_async_interrupted by done. apply quiet_refl.
Qed.

Lemma run_calls_when_interrupted (cs : list call) w :
  _interrupted w = true ->
  _interrupted (snd (run_calls cfg proc cs w)) = true
  ∧ Obs.count_executor_calls (trace (snd (run_calls cfg proc cs w)))
    = Obs.count_executor_calls (trace w)
  ∧ (forall i cmd stdin show cwd run_id body,
       cs !! i = Some (CallExecuteAsync cmd stdin show cwd run_id body) ->
       fst (run_calls cfg proc cs w) !! i = Some (Raise (SystemExit (-2)))).
Proof.
  revert w. induction cs as [|c cs IH]; intros w Hi; simpl.
  - split_and!; [done|done|]. by intros [|i].
  - destruct (run_call_quiet_when_interrupted c w Hi) as [Hi1 Hc1].
    destruct (run_call cfg proc c w) as [r w1] eqn:Hrun. simpl in Hi1, Hc1.
    destruct (IH w1 (Hi1 Hi)) as (Hi2 & Hc2 & Hres).
    destruct (run_calls cfg proc cs w1) as [rs w2]. simpl in *.
    split_and!; [done|congruence|].
    intros [|i] cmd stdin show cwd run_id body Hl; simpl in *.
    + injection Hl as ->. simpl in Hrun.
      rewrite execute_async_interrupted in Hrun by done. congruence.
    + by eapply Hres.
Qed.

(** C9.  [interrupt] sets the interrupted flag, and no method resets it.
    With the flag set, [execute_async] raises [SystemExit(-2)] at once and
    leaves the world exactly as it found it: no working directory is
    resolved, no mapping or request is built, nothing is logged and the
    executor is not called.  So in every sequence of calls made after an
    [interrupt], each [execute_async] answers [SystemExit(-2)] and the
    executor is never asked to start a process. *)
Theorem interrupt_fences_execute_async w :
  let w1 := snd (interrupt cfg w) in
  _interrupted w1 = true
  ∧ (forall w', _interrupted w' = true ->
       forall cmd stdin show cwd run_id (body : ExecuteStatus -> M unit),
         execute_async_enter cfg proc cmd stdin show cwd run_id w'
         = (Raise (SystemExit (-2)), w')
         ∧ execute_async cfg proc cmd stdin show cwd run_id body w'
           = (Raise (SystemExit (-2)), w'))
  ∧ (forall cs : list call,
       let out := run_calls cfg proc cs w1 in
       _interrupted (snd out) = true
       ∧ Obs.count_executor_calls (trace (snd out))
         = Obs.count_executor_calls (trace w1)
       ∧ (forall i cmd stdin show cwd run_id body,
            cs !! i = Some (CallExecuteAsync cmd stdin show cwd run_id body) ->
            fst out !! i = Some (Raise (SystemExit (-2))))).
Proof.
  intros w1. assert (Hi : _interrupted w1 = true) by apply interrupt_sets_flag.
  split_and!; [done| |].
  - intros w' Hw' cmd stdin show cwd run_id body. split.
    + by apply execute_async_enter_interrupted.
    + by apply execute_async_interrupted.
  - intros cs out. by apply run_calls_when_interrupted.
Qed.

End Quiet.

(** ** Runs on concrete environments *)

Import Scenario.
#[local] Existing Instances M_ret M_bind.

(** C1, as stated, fails.  The installer hook raises [Recreate] on the first
    attempt and on the retry: the second exception gets out of [setup], the
    hook was called twice, and setup_done is true, not false.  And with
    [recreate=True] a [Recreate] of the first attempt is neither retried nor
    raised: the hook was called once and [setup] returns. *)
Lemma setup_recreate_twice_sets_setup_done :
  let w := start [Some (Recreate "deps"); Some (Recreate "deps")] in
  let out := setup cfg0 false w in
  rs_setup (_run_state w) = false
  ∧ fst out = Raise (Recreate "deps")
  ∧ Obs.count_hook SetupWithEnv (trace (snd out)) = 2
  ∧ rs_setup (_run_state (snd out)) = true
  ∧ rs_setup (_run_state (snd out)) ≠ false
  ∧ (let forced := setup cfg0 true (start [Some (Recreate "deps")]) in
     fst forced = Ret tt
     ∧ Obs.count_hook SetupWithEnv (trace (snd forced)) = 1).
Proof. vm_compute. by split_and!. Qed.

(** C2, as stated, fails.  The first [setup] call retries after a [Recreate]
    of the installer hook and completes; the second call does nothing; the
    hook has been called twice across both calls, not once. *)
Lemma setup_twice_after_retry_calls_hook_twice :
  let w := start [Some (Recreate "deps")] in
  let first := setup cfg0 false w in
  let second := setup cfg0 false (snd first) in
  fst first = Ret tt
  ∧ rs_setup (_run_state (snd first)) = true
  ∧ fst second = Ret tt
  ∧ trace (snd second) = trace (snd first)
  ∧ Obs.count_hook SetupWithEnv (trace (snd second)) = 2
  ∧ Obs.count_hook SetupWithEnv (trace (snd second)) ≠ 1.
Proof. vm_compute. by split_and!. Qed.

(** C3, as stated, fails.  After [_clean()] and [_setup_env()] the cleaned
    flag is set, the environment directory exists again and a fingerprint is
    stored; [_clean(force=True)] then changes nothing: the directory is still
    there, the fingerprint is still stored. *)
Lemma clean_force_does_nothing_when_cleaned :
  let w := snd ((_clean cfg0 false;; _setup_env cfg0)
                  (fresh [] [env_dir cfg0] ([] : list (option exn)))) in
  let out := _clean cfg0 true w in
  rs_clean (_run_state w) = true
  ∧ fs_exists (env_dir cfg0) (fs w) = true
  ∧ fst out = Ret tt
  ∧ fs_exists (env_dir cfg0) (fs (snd out)) = true
  ∧ cache (snd out) !! "ToxEnv" = Some (mkFingerprint "py" "VirtualEnvRunner")
  ∧ trace (snd out) = trace w.
Proof. vm_compute. by split_and!. Qed.

(** C4.  The completion hook is missed on a success path.  On an environment
    that fits the platform and is not set up, with the recreate flag off,
    whose [_setup_with_env] raises [Recreate] on its first call and returns
    on its second, [setup] returns, with setup_done true and cleaned false,
    after two calls of the installer hook and without a call of
    [_done_with_setup]: the call is in the [else] clause of the [try], which
    is not run once the [try] has raised, also when the retry of the handler
    succeeds. *)
Lemma setup_retry_skips_completion_hook :
  let w := start [Some (Recreate "deps")] in
  let out := setup cfg0 false w in
  fst (_platform_check cfg0 w) = Ret tt
  ∧ rs_setup (_run_state w) = false
  ∧ fst out = Ret tt
  ∧ rs_setup (_run_state (snd out)) = true
  ∧ rs_clean (_run_state (snd out)) = false
  ∧ Obs.count_hook SetupWithEnv (trace (snd out)) = 2
  ∧ Obs.count_hook DoneWithSetup (trace (snd out)) = 0.
Proof. vm_compute. by split_and!. Qed.

(** C1 on a run: the first attempt raises [Recreate], the retry succeeds. *)
Lemma setup_retries_once_after_recreate_witness :
  let w := start [Some (Recreate "deps")] in
  rs_setup (_run_state w) = false
  ∧ fst (provision cfg0 w) = Raise (Recreate "deps")
  ∧ fst (setup cfg0 false w) = Ret tt
  ∧ rs_setup (_run_state (snd (setup cfg0 false w))) = true.
Proof.
  intros w.
  pose proof (setup_retries_once_after_recreate cfg0 false w "deps"
                (snd (provision cfg0 w)) eq_refl eq_refl eq_refl eq_refl)
    as (_ & Hsetup & _ & _ & Hdone & _).
  split_and!; [reflexivity|reflexivity| |exact Hdone].
  rewrite Hsetup. reflexivity.
Defined.

(** C2 on a run: a second call after a plain first call. *)
Lemma setup_done_is_noop_witness :
  let w := start [] in
  let w1 := snd (setup cfg0 false w) in
  setup cfg0 true w1 = (Ret tt, w1)
  ∧ Obs.count_hook SetupWithEnv (trace (snd (setup cfg0 true w1))) = 1.
Proof.
  intros w w1.
  destruct (setup_done_is_noop cfg0 false true w) as [_ Hsecond].
  destruct (Hsecond eq_refl eq_refl) as [Hnoop Hcount].
  split; [exact Hnoop|]. apply Hcount. intros reason Hr. discriminate Hr.
Defined.

(** C3 on a run: a first clean of an environment whose directory exists. *)
Lemma clean_guard_ignores_force_witness :
  let w := fresh [] [env_dir cfg0] ([] : list (option exn)) in
  exists w',
    _clean cfg0 true w = (Ret tt, w')
    ∧ fs_exists (env_dir cfg0) (fs w') = false
    ∧ cache w' = ∅
    ∧ rs_setup (_run_state w') = false
    ∧ rs_clean (_run_state w') = true.
Proof.
  intros w.
  destruct (clean_guard_ignores_force cfg0 true w) as (_ & Hunset & _).
  destruct (Hunset eq_refl) as (w' & Hrun & Hdir & _ & Hcache & Hs & Hc & _).
  destruct (Hdir eq_refl) as (_ & Hgone & _).
  exists w'. by split_and!.
Defined.

(** X23 on a run: the installer hook fails, the flags are set all the
    same. *)
Lemma setup_marks_done_on_every_exit_witness :
  let w := start [Some (Failure "pip")] in
  fst (setup cfg0 false w) = Raise (Failure "pip")
  ∧ rs_setup (_run_state (snd (setup cfg0 false w))) = true
  ∧ rs_clean (_run_state (snd (setup cfg0 false w))) = false.
Proof.
  intros w.
  destruct (setup_marks_done_on_every_exit cfg0 false w eq_refl eq_refl)
    as (Hs & Hc & _).
  split_and!; [reflexivity|exact Hs|exact Hc].
Defined.

(** C5 on a run: the cache holds the fingerprint of another type. *)
Lemma setup_env_recreate_on_mismatch_witness :
  let w :=
    mkWorld (mkRunState false false false) [] (Some []) None [] false
      {["ToxEnv" := mkFingerprint "py" "Other"]} [] [] [] ([] : list (option exn)) [] in
  _setup_env cfg0 w
  = (Raise (Recreate
      "env type changed from {'name': 'py', 'type': 'Other'} to {'name': 'py', 'type': 'VirtualEnvRunner'}"),
     w).
Proof.
  intros w.
  destruct (setup_env_recreate_on_mismatch cfg0 w) as (Hmis & _).
  apply (Hmis (mkFingerprint "py" "Other")); [reflexivity|discriminate].
Defined.


(** C7 on a run: the mapping is memoized, then the path list is assigned. *)
Lemma set_paths_rewrites_path_in_place_witness :
  let w :=
    mkWorld (mkRunState false false false) [] (Some []) (Some 0) [] false
      ∅ [("PATH", "/bin")] [[("LANG", "C"); ("PATH", "/bin")]] []
      ([] : list (option exn)) [] in
  let out := set__paths posix [["venv"; "bin"]] w in
  _env_vars (snd out) = Some 0
  ∧ dict_at 0 (snd out) = [("LANG", "C"); ("PATH", "/venv/bin:/bin")]
  ∧ _environment_variables cfg0 posix (snd out) = (Ret 0, snd out).
Proof.
  intros w out.
  destruct (set_paths_rewrites_path_in_place cfg0 posix [["venv"; "bin"]] w 0
              eq_refl (le_n 1))
    as (_ & _ & Hvars & Hdict & _ & _ & _ & _ & _ & _ & _ & Hagain).
  split_and!; [exact Hvars|exact Hdict|exact Hagain].
Defined.

(** C9 on a run: an [execute_async] after [interrupt] and a [setup]. *)
Lemma interrupt_fences_execute_async_witness :
  let w1 := snd (interrupt cfg0 (start [])) in
  let cs := [Plain (CallSetup false); CallExecuteAsync ["ls"] OFF None None "run" []] in
  fst (run_calls cfg0 posix cs w1) !! 1 = Some (Raise (SystemExit (-2)))
  ∧ Obs.count_executor_calls (trace (snd (run_calls cfg0 posix cs w1))) = 0.
Proof.
  intros w1 cs.
  destruct (interrupt_fences_execute_async cfg0 posix (start []))
    as (_ & _ & Hcalls).
  destruct (Hcalls cs) as (_ & Hcount & Hres).
  split; [exact (Hres 1 ["ls"] OFF None None "run" [] eq_refl)|exact Hcount].
Defined.


(** * Further properties of the methods *)

(** ** Frames *)

Section FrameRules.
Context {Σ : Type} `{Collaborators Σ}.
Variable cfg : Conf.
Variable proc : Process.
Variable R : World Σ -> World Σ -> Prop.
Hypothesis HR : Frames.frame R.
Implicit Types (w : World Σ).
#[local] Existing Instances M_ret M_bind.

Ltac frame_auto :=
  repeat first
    [ keeps_step (Frames.fr_refl R HR) (Frames.fr_trans R HR)
    | apply keeps_modify; intros ?;
      first [ apply (Frames.fr_passive R HR); reflexivity
            | apply (Frames.fr_fs R HR)
            | apply (Frames.fr_cache R HR)
            | apply (Frames.fr_heap R HR)
            | apply (Frames.fr_env_vars R HR)
            | apply (Frames.fr_paths R HR)
            | apply (Frames.fr_statuses R HR)
            | apply (Frames.fr_hidden R HR)
            | apply (Frames.fr_interrupted R HR) ] ].

Lemma frame_emit (e : event) :
  Frames.passive e = true -> Keeps.keeps R (emit e).
Proof. intros He w. by apply (Frames.fr_passive R HR). Qed.

Lemma frame_platform_check : Keeps.keeps R (_platform_check cfg).
Proof. intros w. rewrite platform_check_world. apply (Frames.fr_refl R HR). Qed.

Lemma frame_cache_compare c m : Keeps.keeps R (cache_compare c m).
Proof.
  intros w. unfold cache_compare. destruct (cache w !! m); simpl.
  - apply (Frames.fr_refl R HR).
  - apply (Frames.fr_cache R HR).
Qed.

Lemma frame_handle_env_tmp_dir : Keeps.keeps R (_handle_env_tmp_dir cfg).
Proof.
  unfold _handle_env_tmp_dir.
  frame_auto; apply frame_emit; reflexivity.
Qed.

Lemma frame_setup_env : Keeps.keeps R (_setup_env cfg).
Proof.
  unfold _setup_env.
  apply (keeps_bind _ (Frames.fr_trans R HR)); [apply frame_cache_compare|].
  intros [eq old]. frame_auto; apply frame_handle_env_tmp_dir.
Qed.

Lemma frame_clean force : Keeps.keeps R (_clean cfg force).
Proof.
  unfold _clean, cache_reset.
  apply (keeps_bind _ (Frames.fr_trans R HR));
    [apply (keeps_get_world _ (Frames.fr_refl R HR))|].
  intros w0. destruct (rs_clean (_run_state w0));
    [apply (keeps_ret _ (Frames.fr_refl R HR))|].
  apply (keeps_bind _ (Frames.fr_trans R HR)).
  { frame_auto; apply frame_emit; reflexivity. }
  intros _. apply (keeps_bind _ (Frames.fr_trans R HR)).
  { frame_auto; apply frame_emit; reflexivity. }
  intros _ w. apply (Frames.fr_cleaned R HR).
Qed.

Lemma frame_setup_hook h : h ≠ Teardown -> Keeps.keeps R (call_hook h).
Proof. intros Hh w. by apply (Frames.fr_setup_hook R HR). Qed.

Lemma frame_setup recreate : Keeps.keeps R (setup cfg recreate).
Proof.
  unfold setup.
  apply (keeps_bind _ (Frames.fr_trans R HR));
    [apply (keeps_get_world _ (Frames.fr_refl R HR))|].
  intros w0. destruct (negb _); [|apply (keeps_ret _ (Frames.fr_refl R HR))].
  apply (keeps_bind _ (Frames.fr_trans R HR)); [apply frame_platform_check|].
  intros _. apply (keeps_bind _ (Frames.fr_trans R HR)).
  { destruct (recreate || conf_recreate cfg);
      [apply frame_clean|apply (keeps_ret _ (Frames.fr_refl R HR))]. }
  intros _.
  apply (keeps_try_except_else_finally _ (Frames.fr_trans R HR)).
  - apply (keeps_bind _ (Frames.fr_trans R HR)); [apply frame_setup_env|].
    intros _. by apply frame_setup_hook.
  - intros e h He. destruct e; try done. injection He as <-.
    destruct (negb _); [|apply (keeps_ret _ (Frames.fr_refl R HR))].
    apply (keeps_bind _ (Frames.fr_trans R HR)); [by apply frame_emit|].
    intros _. apply (keeps_bind _ (Frames.fr_trans R HR)); [apply frame_clean|].
    intros _. apply (keeps_bind _ (Frames.fr_trans R HR)); [apply frame_setup_env|].
    intros _. by apply frame_setup_hook.
  - by apply frame_setup_hook.
  - intros w. apply (Frames.fr_setup_done R HR).
Qed.

Lemma frame_interrupt : Keeps.keeps R (interrupt cfg).
Proof.
  unfold interrupt.
  apply (keeps_bind _ (Frames.fr_trans R HR)); [by apply frame_emit|].
  intros _. apply (keeps_bind _ (Frames.fr_trans R HR)).
  { intros w. apply (Frames.fr_interrupted R HR). }
  intros _. apply (keeps_bind _ (Frames.fr_trans R HR));
    [apply (keeps_get_world _ (Frames.fr_refl R HR))|].
  intros w0.
  apply (keeps_for_each _ (Frames.fr_refl R HR) (Frames.fr_trans R HR)).
  intros st w. unfold_monad. simpl.
  apply (Frames.fr_status_interrupt R HR (st_id st) w).
Qed.

Lemma frame_compile_all (l : list string) : Keeps.keeps R (compile_all l).
Proof. induction l as [|e l IH]; simpl; frame_auto. apply IH. Qed.

Lemma frame_environment_variables :
  Keeps.keeps R (_environment_variables cfg proc).
Proof.
  unfold _environment_variables, _make_path, dict_setitem.
  apply (keeps_bind _ (Frames.fr_trans R HR));
    [apply (keeps_get_world _ (Frames.fr_refl R HR))|].
  intros w0. destruct (_env_vars w0); [apply (keeps_ret _ (Frames.fr_refl R HR))|].
  apply (keeps_bind _ (Frames.fr_trans R HR)).
  { intros w. apply (Frames.fr_heap R HR). }
  intros a.
  apply (keeps_bind _ (Frames.fr_trans R HR)); [apply frame_compile_all|].
  intros globs. frame_auto.
Qed.

Lemma frame_set_paths value : Keeps.keeps R (set__paths proc value).
Proof. unfold set__paths, _make_path, dict_setitem. frame_auto. Qed.

Lemma frame_execute_async_enter cmd stdin show cwd run_id :
  Keeps.keeps R (execute_async_enter cfg proc cmd stdin show cwd run_id).
Proof.
  unfold execute_async_enter.
  apply (keeps_bind _ (Frames.fr_trans R HR));
    [apply (keeps_get_world _ (Frames.fr_refl R HR))|].
  intros w0. destruct (_interrupted w0);
    [apply (keeps_raise _ (Frames.fr_refl R HR))|].
  apply (keeps_bind _ (Frames.fr_trans R HR));
    [apply frame_environment_variables|].
  intros env.
  apply (keeps_bind _ (Frames.fr_trans R HR)); [by apply frame_emit|].
  intros _. apply (keeps_bind _ (Frames.fr_trans R HR)).
  { intros w. pose proof (Frames.fr_executor R HR) as He.
    specialize (He (mkRequest cmd (default (tox_root cfg) cwd) env stdin run_id)
                   (default (3 <? verbosity cfg)%Z show) w).
    simpl. by destruct (executor_call _ _ (ext w)). }
  intros st. frame_auto.
Qed.

Lemma frame_execute_async {A} cmd stdin show cwd run_id
    (body : ExecuteStatus -> M A) :
  (forall st, Keeps.keeps R (body st)) ->
  Keeps.keeps R (execute_async cfg proc cmd stdin show cwd run_id body).
Proof.
  intros Hbody. unfold execute_async.
  apply (keeps_bind _ (Frames.fr_trans R HR));
    [apply frame_execute_async_enter|].
  intros [st sh].
  apply (keeps_bind _ (Frames.fr_trans R HR)).
  { apply (keeps_try_finally _ (Frames.fr_trans R HR)); [apply Hbody|].
    intros w. apply (Frames.fr_statuses R HR). }
  intros a. apply (keeps_bind _ (Frames.fr_trans R HR));
    [apply (keeps_get_world _ (Frames.fr_refl R HR))|].
  intros w0. apply (keeps_bind _ (Frames.fr_trans R HR)).
  { destruct sh; [|apply (keeps_ret _ (Frames.fr_refl R HR))].
    destruct (_hidden_outcomes w0); [|apply (keeps_ret _ (Frames.fr_refl R HR))].
    destruct (status_outcome _ _); [|apply (keeps_ret _ (Frames.fr_refl R HR))].
    intros w. apply (Frames.fr_hidden R HR). }
  intros _. apply (keeps_bind _ (Frames.fr_trans R HR)).
  { destruct (has_journal cfg); [|apply (keeps_ret _ (Frames.fr_refl R HR))].
    destruct (status_outcome _ _); [|apply (keeps_ret _ (Frames.fr_refl R HR))].
    by apply frame_emit. }
  intros _. apply (keeps_ret _ (Frames.fr_refl R HR)).
Qed.

(** every call keeps a frame that [teardown] keeps *)
Lemma frame_run_call (c : call) :
  Keeps.keeps R teardown -> Keeps.keeps R (run_call cfg proc c).
Proof.
  intros Htd.
  assert (Hplain : forall c0, Keeps.keeps R (run_plain cfg proc c0)).
  { intros [r| | |v|]; simpl.
    - apply frame_setup.
    - apply Htd.
    - apply frame_interrupt.
    - apply frame_set_paths.
    - apply (keeps_bind _ (Frames.fr_trans R HR));
        [apply frame_environment_variables|].
      intros _. apply (keeps_ret _ (Frames.fr_refl R HR)). }
  destruct c as [c|cmd stdin show cwd run_id body]; simpl; [apply Hplain|].
  apply frame_execute_async. intros st.
  by apply (keeps_for_each _ (Frames.fr_refl R HR) (Frames.fr_trans R HR)).
Qed.

Lemma frame_run_calls (cs : list call) w :
  Keeps.keeps R teardown -> R w (snd (run_calls cfg proc cs w)).
Proof.
  intros Htd. revert w. induction cs as [|c cs IH]; intros w; simpl.
  - apply (Frames.fr_refl R HR).
  - pose proof (frame_run_call c Htd w) as Hc.
    destruct (run_call cfg proc c w) as [r w1]. simpl in Hc.
    specialize (IH w1). destruct (run_calls cfg proc cs w1) as [rs w2].
    simpl in *. by eapply (Frames.fr_trans R HR).
Qed.

End FrameRules.

(** ** Teardown and the run state *)

Section Orderly.
Context {Σ : Type} `{Collaborators Σ}.
Variable cfg : Conf.
Variable proc : Process.
Implicit Types (w : World Σ).
#[local] Existing Instances M_ret M_bind.

Lemma count_hook_snoc_other h (tr : list event) (e : event) :
  Obs.is_hook_call h e = false ->
  Obs.count_hook h (tr ++ [e]) = Obs.count_hook h tr.
Proof.
  intros He. rewrite count_hook_app. unfold Obs.count_hook at 2. simpl.
  rewrite He. simpl. lia.
Qed.

Lemma orderly_same_flags_and_count w w' :
  _run_state w' = _run_state w ->
  Obs.count_hook Teardown (trace w') = Obs.count_hook Teardown (trace w) ->
  orderly w w'.
Proof.
  intros Hrs Hc. unfold orderly, Frames.teardown_budget, Frames.flags_consistent.
  rewrite Hrs, Hc. by split_and!.
Qed.

Lemma orderly_frame : Frames.frame (Σ := Σ) orderly.
Proof.
  constructor.
  - intros w. by apply orderly_same_flags_and_count.
  - intros w1 w2 w3 (H1 & H2 & H3) (H4 & H5 & H6).
    split_and!; [congruence|tauto|tauto].
  - intros e w He. apply orderly_same_flags_and_count; [done|]. simpl.
    apply count_hook_snoc_other. by destruct e.
  - intros v w. by apply orderly_same_flags_and_count.
  - intros v w. by apply orderly_same_flags_and_count.
  - intros v w. by apply orderly_same_flags_and_count.
  - intros v w. by apply orderly_same_flags_and_count.
  - intros v w. by apply orderly_same_flags_and_count.
  - intros v w. by apply orderly_same_flags_and_count.
  - intros v w. by apply orderly_same_flags_and_count.
  - intros w. by apply orderly_same_flags_and_count.
  - intros id w. apply orderly_same_flags_and_count; [done|]. simpl.
    by apply count_hook_snoc_other.
  - intros h w Hh. rewrite call_hook_run. simpl.
    apply orderly_same_flags_and_count; [done|]. simpl.
    apply count_hook_snoc_other. by destruct h.
  - intros w. unfold orderly, Frames.teardown_budget, Frames.flags_consistent.
    simpl. by split_and!.
  - intros w. unfold orderly, Frames.teardown_budget, Frames.flags_consistent.
    simpl. by split_and!.
  - intros req show w. apply orderly_same_flags_and_count; [done|]. simpl.
    by apply count_hook_snoc_other.
Qed.

(** what a call of [teardown] answers and leaves *)
Lemma teardown_run w :
  teardown w
  = if rs_teardown (_run_state w) then (Ret tt, w)
    else
      (match fst (run_hook Teardown (_run_state w) (ext w)) with
       | None => Ret tt
       | Some e => Raise e
       end,
       set_run_state
         (mkRunState (rs_setup (_run_state w)) (rs_clean (_run_state w)) true)
         (set_trace (trace w ++ [HookCall Teardown (_run_state w)])
            (set_ext (snd (run_hook Teardown (_run_state w) (ext w))) w))).
Proof.
  unfold teardown. unfold_monad.
  destruct (rs_teardown (_run_state w)); simpl; [done|].
  unfold try_finally, _teardown. rewrite call_hook_run. simpl.
  by destruct (fst (run_hook Teardown (_run_state w) (ext w))).
Qed.

Lemma orderly_teardown : Keeps.keeps (Σ := Σ) orderly teardown.
Proof.
  intros w. rewrite teardown_run.
  destruct (rs_teardown (_run_state w)) eqn:Htd; simpl.
  - by apply orderly_same_flags_and_count.
  - unfold orderly, Frames.teardown_budget, Frames.flags_consistent. simpl.
    rewrite Htd. split_and!; try done.
    rewrite count_hook_app. unfold Obs.count_hook at 2. simpl. lia.
Qed.

(** X1.  [teardown] leaves teardown_done set whatever its hook does: a call
    on an environment that is not torn down answers what the hook answers, an
    exception included, and sets the flag all the same; a call on one that is
    torn down returns and changes nothing; setup_done and cleaned are never
    touched.  So a second call is always a no-op. *)
Theorem teardown_sets_flag_whatever_the_hook_does w :
  let out := teardown w in
  rs_teardown (_run_state (snd out)) = true
  ∧ rs_setup (_run_state (snd out)) = rs_setup (_run_state w)
  ∧ rs_clean (_run_state (snd out)) = rs_clean (_run_state w)
  ∧ fst out
    = (if rs_teardown (_run_state w) then Ret tt
       else match fst (run_hook Teardown (_run_state w) (ext w)) with
            | None => Ret tt
            | Some e => Raise e
            end)
  ∧ trace (snd out)
    = (if rs_teardown (_run_state w) then trace w
       else trace w ++ [HookCall Teardown (_run_state w)])
  ∧ teardown (snd out) = (Ret tt, snd out).
Proof.
  intros out. unfold out. rewrite (teardown_run w).
  destruct (rs_teardown (_run_state w)) eqn:Htd; simpl.
  - split_and!; try done. by rewrite teardown_run, Htd.
  - split_and!; try done; by rewrite teardown_run.
Qed.

(** X2.  In every sequence of calls of the public methods, scopes of
    [execute_async] included, the teardown hook is called at most once: the
    number of its calls, plus one while teardown_done is still false, stays
    what it was; teardown_done, once set, stays set. *)
Theorem teardown_hook_called_at_most_once (cs : list call) w :
  let w' := snd (run_calls cfg proc cs w) in
  Obs.count_hook Teardown (trace w')
  + (if rs_teardown (_run_state w') then 0 else 1)
  = Obs.count_hook Teardown (trace w)
    + (if rs_teardown (_run_state w) then 0 else 1)
  ∧ orb (negb (rs_teardown (_run_state w))) (rs_teardown (_run_state w')) = true.
Proof.
  intros w'.
  destruct (frame_run_calls cfg proc orderly orderly_frame cs w orderly_teardown)
    as (Hb & Htd & _).
  split; [exact Hb|]. fold w' in Htd.
  destruct (rs_teardown (_run_state w)); simpl; [by apply Htd|done].
Qed.

(** X3.  setup_done and cleaned are never both set: if they are not both
    set before, they are not both set after any sequence of calls of the
    public methods, nor after [_clean]. *)
Theorem setup_done_and_cleaned_never_both (cs : list call) (force : bool) w :
  Frames.flags_consistent w = true ->
  Frames.flags_consistent (snd (run_calls cfg proc cs w)) = true
  ∧ Frames.flags_consistent (snd (_clean cfg force w)) = true.
Proof.
  intros Hc. split.
  - destruct (frame_run_calls cfg proc orderly orderly_frame cs w orderly_teardown)
      as (_ & _ & Hinv). by apply Hinv.
  - destruct (frame_clean cfg orderly orderly_frame force w) as (_ & _ & Hinv).
    by apply Hinv.
Qed.

End Orderly.

(** X3 on a run: an environment that is set up, cleaned by a forced setup
    that fails, and torn down. *)
Lemma setup_done_and_cleaned_never_both_witness :
  let cs := [Plain (CallSetup false); Plain (CallSetup true); Plain CallTeardown] in
  Frames.flags_consistent
    (snd (run_calls cfg0 posix cs (start [Some (Failure "pip")]))) = true.
Proof.
  intros cs.
  exact (proj1 (setup_done_and_cleaned_never_both cfg0 posix cs false
                  (start [Some (Failure "pip")]) eq_refl)).
Defined.

(** ** The platform check *)

Lemma compile_cons_no_star (c : ascii) (s : string) (a : Re.atom) :
  Re.atom_of c = Some a ->
  (forall s', s ≠ String "*" s') ->
  Re.compile (String c s)
  = match Re.compile s with
    | Some r => Some (Re.One a :: r)
    | None => None
    end.
Proof.
  intros Ha Hs. simpl. rewrite Ha. destruct s as [|c' s']; [done|].
  destruct c' as [[] [] [] [] [] [] [] []]; try done.
  by destruct (Hs s').
Qed.

Lemma compile_plain_name (s : string) :
  plain_name s = true ->
  exists r, Re.compile s = Some r
            ∧ forall t, Re.is_fullmatch r t = bool_decide (t = s).
Proof.
  induction s as [|c s IH].
  - intros _. exists []. split; [done|]. by intros [|c t].
  - intros Hp. simpl in Hp.
    apply andb_true_iff in Hp as [[Hdot Hspec]%andb_true_iff Hs].
    apply negb_true_iff in Hdot, Hspec.
    destruct (IH Hs) as (r & Hr & Hfull).
    rewrite (compile_cons_no_star c s (Re.AChar c)).
    + rewrite Hr. eexists. split; [done|].
      intros [|c' t]; cbn [Re.is_fullmatch Re.atom_matches].
      * symmetry. by apply bool_decide_eq_false_2.
      * rewrite Hfull. destruct (Ascii.eqb c c') eqn:Hc.
        -- apply Ascii.eqb_eq in Hc as ->. rewrite andb_true_l.
           destruct (decide (t = s)) as [->|Hne].
           ++ by rewrite !bool_decide_eq_true_2.
           ++ by rewrite !bool_decide_eq_false_2 by congruence.
        -- apply Ascii.eqb_neq in Hc. rewrite andb_false_l.
           symmetry. apply bool_decide_eq_false_2. congruence.
    + unfold Re.atom_of. by rewrite Hdot, Hspec.
    + intros s' ->. simpl in Hs. done.
Qed.

Section PlatformCheck.
Context {Σ : Type} `{Collaborators Σ}.
Variable cfg : Conf.
Implicit Types (w : World Σ).
#[local] Existing Instances M_ret M_bind.

(** X4.  When the platform pattern is set and [re.fullmatch] finds no match
    of it on the platform name, whatever the pattern (of the fragment of
    [Re] or beyond it), [setup] on an environment that is not set up raises
    [Skip] with a message that names both, before anything else happens: the
    world is left exactly as it was, also for [recreate=True] (no clean, no
    directory, no hook, setup_done still false). *)
Theorem setup_skips_on_platform_mismatch (recreate : bool) w :
  conf_platform cfg ≠ "" ->
  re_fullmatch (conf_platform cfg) (runs_on_platform cfg) = Some false ->
  rs_setup (_run_state w) = false ->
  setup cfg recreate w
  = (Raise (Skip ("platform " +:+ runs_on_platform cfg
                  +:+ " does not match " +:+ conf_platform cfg)), w).
Proof.
  intros Hne Hm Hs. unfold setup, _platform_check. unfold_monad.
  rewrite Hs. simpl. rewrite bool_decide_eq_false_2 by done. simpl.
  by rewrite Hm.
Qed.

(** X5.  For a platform pattern that is a plain name (no [.], no special
    character) the check passes exactly when the pattern is empty or equal
    to the platform name, and raises [Skip] otherwise; it never touches the
    world. *)
Theorem platform_check_plain_name w :
  plain_name (conf_platform cfg) = true ->
  _platform_check cfg w
  = (if bool_decide (conf_platform cfg = "")
        || bool_decide (runs_on_platform cfg = conf_platform cfg)
     then Ret tt
     else Raise (Skip ("platform " +:+ runs_on_platform cfg
                       +:+ " does not match " +:+ conf_platform cfg)),
     w).
Proof.
  intros Hp. destruct (compile_plain_name _ Hp) as (r & Hr & Hfull).
  unfold _platform_check, re_fullmatch. rewrite Hr, Hfull.
  destruct (bool_decide (conf_platform cfg = "")); simpl; [done|].
  by destruct (bool_decide (runs_on_platform cfg = conf_platform cfg)).
Qed.

End PlatformCheck.

(** X4 on a run: an environment for win32 or cygwin on linux, asked to
    recreate. *)
Lemma setup_skips_on_platform_mismatch_witness :
  let conf :=
    mkConf "py" "VirtualEnvRunner" ["work"; ".tox"; "py"]
           ["work"; ".tox"; "py"; "tmp"] "win32|cygwin" "linux" false [] []
           ["work"] 2 false in
  let w := fresh [] [env_dir conf] ([] : list (option exn)) in
  setup conf true w
  = (Raise (Skip "platform linux does not match win32|cygwin"), w).
Proof.
  intros conf w.
  exact (setup_skips_on_platform_mismatch conf true w
           ltac:(discriminate) eq_refl eq_refl).
Defined.

(** X5 on a run: the same environment. *)
Lemma platform_check_plain_name_witness :
  let conf :=
    mkConf "py" "VirtualEnvRunner" ["work"; ".tox"; "py"]
           ["work"; ".tox"; "py"; "tmp"] "win32" "linux" false [] []
           ["work"] 2 false in
  let w := fresh [] [] ([] : list (option exn)) in
  _platform_check conf w
  = (Raise (Skip "platform linux does not match win32"), w).
Proof.
  intros conf w. exact (platform_check_plain_name conf w eq_refl).
Defined.

(** ** The temporary directory *)

Lemma path_under_app (p q : Path) :
  path_under p q = true <-> exists s, q = p ++ s.
Proof.
  revert q. induction p as [|x p IH]; intros q; simpl.
  - split; [by exists q|done].
  - destruct q as [|y q].
    + split; [done|]. by intros [s ?].
    + rewrite andb_true_iff, bool_decide_eq_true, IH. split.
      * intros [-> [s ->]]. by exists s.
      * intros [s [= -> ->]]. split; [done|by exists s].
Qed.

Lemma elem_of_fs_mkdir_fold (l : list Path) (files : FS) (q : Path) :
  q ∈ fold_left (fun acc a => if fs_exists a acc then acc else acc ++ [a]) l files
  <-> q ∈ files ∨ q ∈ l.
Proof.
  revert files. induction l as [|a l IH]; intros files; simpl.
  - rewrite elem_of_nil. tauto.
  - rewrite IH, elem_of_cons. unfold fs_exists.
    destruct (bool_decide (a ∈ files)) eqn:Ha.
    + apply bool_decide_eq_true in Ha. split; [tauto|].
      intros [?|[->|?]]; tauto.
    + rewrite elem_of_app, list_elem_of_singleton. tauto.
Qed.

Lemma elem_of_fs_mkdir (p q : Path) (files : FS) :
  q ∈ fs_mkdir p files <-> q ∈ files ∨ q ∈ ancestors [] p.
Proof. apply elem_of_fs_mkdir_fold. Qed.

Lemma elem_of_ancestors (base p a : Path) :
  a ∈ ancestors base p
  <-> exists s1 s2, p = s1 ++ s2 ∧ s1 ≠ [] ∧ a = base ++ s1.
Proof.
  revert base. induction p as [|x p IH]; intros base; simpl.
  - rewrite elem_of_nil. split; [done|].
    intros (s1 & s2 & Hp & Hne & _). symmetry in Hp.
    apply app_eq_nil in Hp as [-> _]. done.
  - rewrite elem_of_cons, IH. split.
    + intros [->|(s1 & s2 & -> & Hne & ->)].
      * by exists [x], p.
      * exists (x :: s1), s2. rewrite <- app_assoc. done.
    + intros (s1 & s2 & Hp & Hne & ->).
      destruct s1 as [|y s1]; [done|]. injection Hp as <- ->.
      destruct s1 as [|z s1]; [by left|]. right.
      exists (z :: s1), s2. rewrite <- app_assoc. done.
Qed.

Lemma ancestors_self (p : Path) : p ≠ [] -> p ∈ ancestors [] p.
Proof.
  intros Hne. apply elem_of_ancestors. exists p, []. by rewrite app_nil_r.
Qed.

(** an ancestor of [p] that lies under [p] is [p] *)
Lemma ancestor_under (p a : Path) :
  a ∈ ancestors [] p -> path_under p a = true -> a = p.
Proof.
  intros (s1 & s2 & -> & _ & ->)%elem_of_ancestors [s Hs]%path_under_app.
  simpl in *. rewrite <- app_assoc in Hs.
  rewrite <- (app_nil_r s1) in Hs at 1. apply app_inv_head in Hs.
  symmetry in Hs. apply app_eq_nil in Hs as [-> _]. by rewrite app_nil_r.
Qed.

Lemma fs_nonempty_false (p : Path) (files : FS) :
  fs_nonempty p files = false
  <-> forall q, q ∈ files -> path_under p q = true -> q = p.
Proof.
  unfold fs_nonempty. rewrite <- not_true_iff_false, existsb_exists. split.
  - intros Hno q Hq Hu. destruct (decide (q = p)) as [|Hne]; [done|].
    destruct Hno. exists q. rewrite <- list_elem_of_In, Hu. split; [done|].
    simpl. by rewrite bool_decide_eq_false_2.
  - intros Hall (q & Hq & [Hu Hne]%andb_true_iff).
    apply list_elem_of_In in Hq. apply negb_true_iff, bool_decide_eq_false in Hne.
    by apply Hne, Hall.
Qed.

Lemma fs_closed_prefix (files : FS) (p s : Path) :
  fs_closed files -> p ≠ [] -> p ++ s ∈ files -> p ∈ files.
Proof.
  intros Hc Hp. induction s as [|x s IH] using rev_ind.
  - by rewrite app_nil_r.
  - rewrite app_assoc. intros Hin. apply IH, (Hc _ x); [done|].
    by destruct p.
Qed.

Lemma fs_closed_rmtree (p : Path) (files : FS) :
  fs_closed files -> fs_closed (fs_rmtree p files).
Proof.
  intros Hc q x [Hin Hu]%elem_of_fs_rmtree Hq. apply elem_of_fs_rmtree.
  split; [by apply (Hc q x)|].
  apply not_true_iff_false. intros [s ->]%path_under_app.
  apply not_true_iff_false in Hu. apply Hu, path_under_app.
  exists (s ++ [x]). by rewrite app_assoc.
Qed.

Lemma fs_closed_mkdir (p : Path) (files : FS) :
  fs_closed files -> fs_closed (fs_mkdir p files).
Proof.
  intros Hc q x [Hin|Ha]%elem_of_fs_mkdir Hq; apply elem_of_fs_mkdir.
  - left. by apply (Hc q x).
  - right. apply elem_of_ancestors in Ha as (s1 & s2 & -> & Hne & Hqx).
    simpl in Hqx. apply elem_of_ancestors.
    destruct s1 as [|y s1 _] using rev_ind; [done|].
    apply app_inj_tail in Hqx as [-> ->].
    exists s1, (y :: s2). rewrite <- app_assoc. done.
Qed.

Section TmpDir.
Context {Σ : Type} `{Collaborators Σ}.
Variable cfg : Conf.
Implicit Types (w : World Σ).
#[local] Existing Instances M_ret M_bind.

Lemma handle_env_tmp_dir_fs w :
  _handle_env_tmp_dir cfg w
  = (Ret tt,
     set_trace (trace (snd (_handle_env_tmp_dir cfg w)))
       (set_fs
          (fs_mkdir (env_tmp_dir cfg)
             (if fs_exists (env_tmp_dir cfg) (fs w)
                 && fs_nonempty (env_tmp_dir cfg) (fs w)
              then fs_rmtree (env_tmp_dir cfg) (fs w) else fs w)) w)).
Proof.
  unfold _handle_env_tmp_dir. unfold_monad.
  by destruct (fs_exists (env_tmp_dir cfg) (fs w)
               && fs_nonempty (env_tmp_dir cfg) (fs w)).
Qed.

(** X6.  In a file system where every path lies in an existing directory,
    [_handle_env_tmp_dir] leaves the temporary directory existing and empty,
    with all its parents; outside the directory every path that existed still
    exists and only the parents are new; when the directory was absent or
    empty nothing is removed at all; and the file system is again one where
    every path lies in an existing directory. *)
Theorem handle_env_tmp_dir_leaves_empty_directory w :
  env_tmp_dir cfg ≠ [] ->
  fs_closed (fs w) ->
  let dir := env_tmp_dir cfg in
  let out := _handle_env_tmp_dir cfg w in
  fst out = Ret tt
  ∧ fs_exists dir (fs (snd out)) = true
  ∧ fs_nonempty dir (fs (snd out)) = false
  ∧ (forall a, a ∈ ancestors [] dir -> a ∈ fs (snd out))
  ∧ (forall q, path_under dir q = false ->
       (q ∈ fs (snd out) <-> q ∈ fs w ∨ q ∈ ancestors [] dir))
  ∧ (fs_nonempty dir (fs w) = false ->
     forall q, q ∈ fs w -> q ∈ fs (snd out))
  ∧ fs_closed (fs (snd out)).
Proof.
  intros Hne Hc dir out. unfold out. rewrite handle_env_tmp_dir_fs. simpl.
  fold dir.
  set (files := if fs_exists dir (fs w) && fs_nonempty dir (fs w)
                then fs_rmtree dir (fs w) else fs w).
  assert (Hunder : forall q, q ∈ files -> path_under dir q = true -> q = dir).
  { intros q Hq Hu. unfold files in Hq.
    destruct (fs_exists dir (fs w)) eqn:He; simpl in Hq.
    - destruct (fs_nonempty dir (fs w)) eqn:Hn.
      + apply elem_of_fs_rmtree in Hq as [_ Hq]. congruence.
      + by apply (proj1 (fs_nonempty_false dir (fs w)) Hn).
    - apply path_under_app in Hu as [s ->].
      apply (fs_closed_prefix _ _ _ Hc Hne) in Hq.
      unfold fs_exists in He. by apply bool_decide_eq_false in He. }
  split_and!.
  - done.
  - unfold fs_exists. apply bool_decide_eq_true, elem_of_fs_mkdir. right.
    by apply ancestors_self.
  - apply fs_nonempty_false. intros q [Hq|Hq]%elem_of_fs_mkdir Hu.
    + by apply Hunder.
    + by apply ancestor_under.
  - intros a Ha. apply elem_of_fs_mkdir. by right.
  - intros q Hq. rewrite elem_of_fs_mkdir. unfold files.
    destruct (fs_exists dir (fs w) && fs_nonempty dir (fs w)); [|done].
    rewrite elem_of_fs_rmtree. tauto.
  - intros Hn q Hq. apply elem_of_fs_mkdir. left. unfold files.
    rewrite Hn, andb_false_r. done.
  - apply fs_closed_mkdir. unfold files.
    destruct (fs_exists dir (fs w) && fs_nonempty dir (fs w)); [|done].
    by apply fs_closed_rmtree.
Qed.

End TmpDir.

(** X6 on a run: the temporary directory /t holds a file. *)
Lemma handle_env_tmp_dir_leaves_empty_directory_witness :
  let conf :=
    mkConf "py" "VirtualEnvRunner" ["e"] ["t"] "" "linux" false [] []
           ["work"] 2 false in
  let w := fresh [] [["t"]; ["t"; "f"]; ["e"]] ([] : list (option exn)) in
  fs_nonempty ["t"] (fs w) = true
  ∧ fs_exists ["t"] (fs (snd (_handle_env_tmp_dir conf w))) = true
  ∧ fs_nonempty ["t"] (fs (snd (_handle_env_tmp_dir conf w))) = false.
Proof.
  intros conf w.
  assert (Hclosed : fs_closed (fs w)).
  { intros p x Hin Hp. simpl in Hin.
    repeat (apply elem_of_cons in Hin as [Hin|Hin]).
    - by apply (app_inj_tail p [] x "t") in Hin as [-> _].
    - apply (app_inj_tail p ["t"] x "f") in Hin as [-> _]. set_solver.
    - by apply (app_inj_tail p [] x "e") in Hin as [-> _].
    - by apply elem_of_nil in Hin. }
  destruct (handle_env_tmp_dir_leaves_empty_directory conf w
              ltac:(discriminate) Hclosed) as (_ & He & Hn & _).
  split_and!; [reflexivity|exact He|exact Hn].
Defined.

(** ** Sessions *)

Section DictRoundTrip.
Context {K V : Type} `{EqDecision K}.
Implicit Types (d : list (K * V)) (k : K) (v : V).

Lemma pop_set_fresh d k v :
  k ∉ PyDict.keys d -> PyDict.pop k (PyDict.set k v d) = d.
Proof.
  induction d as [|[k' v'] d IH]; simpl.
  - intros _. by rewrite decide_True.
  - intros [Hne Hnin]%not_elem_of_cons.
    rewrite decide_False by done. simpl. rewrite decide_False by done.
    by rewrite IH.
Qed.

Lemma get_pop_other d k k' :
  k ≠ k' -> PyDict.get k' (PyDict.pop k d) = PyDict.get k' d.
Proof.
  intros Hne. induction d as [|[k0 v0] d IH]; simpl; [done|].
  destruct (decide (k0 = k)) as [->|Hne0]; simpl.
  - by rewrite decide_False.
  - by rewrite IH.
Qed.

Lemma get_pop_same d k :
  NoDup (PyDict.keys d) -> PyDict.get k (PyDict.pop k d) = None.
Proof.
  induction d as [|[k0 v0] d IH]; simpl; [done|].
  intros [Hk Hnd]%NoDup_cons.
  destruct (decide (k0 = k)) as [->|Hne]; simpl.
  - by apply get_None_keys.
  - rewrite decide_False by done. by apply IH.
Qed.

End DictRoundTrip.

Section SessionFacts.
Context {Σ : Type} `{Collaborators Σ}.
Variable cfg : Conf.
Variable proc : Process.
Implicit Types (w : World Σ).
#[local] Existing Instances M_ret M_bind.

Lemma mapping_only_refl w : Sessions.mapping_only w w.
Proof. by repeat split. Qed.

Lemma mapping_only_trans w1 w2 w3 :
  Sessions.mapping_only w1 w2 -> Sessions.mapping_only w2 w3 ->
  Sessions.mapping_only w1 w3.
Proof.
  unfold Sessions.mapping_only. intros H1 H2.
  destruct_and!. split_and!; congruence.
Qed.

Lemma mapping_only_environment_variables :
  Keeps.keeps (Σ := Σ) Sessions.mapping_only (_environment_variables cfg proc).
Proof.
  unfold _environment_variables, _make_path, dict_setitem.
  apply (keeps_bind _ mapping_only_trans);
    [apply (keeps_get_world _ mapping_only_refl)|].
  intros w0. destruct (_env_vars w0); [apply (keeps_ret _ mapping_only_refl)|].
  apply (keeps_bind _ mapping_only_trans); [by intros w; repeat split|].
  intros a. apply (keeps_bind _ mapping_only_trans).
  { generalize (List.filter (PyStr.contains "*") (conf_pass_env cfg proc)).
    intros l. induction l as [|e l IH]; simpl.
    - apply (keeps_ret _ mapping_only_refl).
    - destruct (Re.compile _); [|apply (keeps_raise _ mapping_only_refl)].
      apply (keeps_bind _ mapping_only_trans); [apply IH|].
      intros rs. apply (keeps_ret _ mapping_only_refl). }
  intros globs.
  repeat first
    [ keeps_step mapping_only_refl mapping_only_trans
    | apply keeps_modify; intros ?; by repeat split ].
Qed.

(** the answer of the property is the memoized object *)
Lemma environment_variables_memoizes w (a : nat) w0 :
  _environment_variables cfg proc w = (Ret a, w0) -> _env_vars w0 = Some a.
Proof.
  intros Hrun. destruct (_env_vars w) as [b|] eqn:Hv.
  - unfold _environment_variables in Hrun. unfold_monad. rewrite Hv in Hrun.
    by injection Hrun as -> <-.
  - destruct (Resolver.compile_globs (conf_pass_env cfg proc)) as [globs|] eqn:Hg.
    + rewrite (environment_variables_first_run cfg proc w globs) in Hrun by done.
      by injection Hrun as <- <-.
    + exfalso. unfold _environment_variables in Hrun.
      unfold mbind at 1, M_bind at 1, get_world at 1 in Hrun. rewrite Hv in Hrun.
      unfold mbind at 1, M_bind at 1, alloc_dict in Hrun. simpl in Hrun.
      unfold mbind at 1, M_bind at 1 in Hrun.
      destruct (compile_all_run (conf_pass_env cfg proc)
                  (set_heap (heap w ++ [[]]) w)) as [Hc Hnone].
      destruct (Hnone Hg) as [pat Hpat].
      rewrite Hc, Hg, Hpat in Hrun. done.
Qed.

Lemma for_each_status_interrupt (sts : list ExecuteStatus) w :
  for_each sts (fun status =>
    modify (fun w => set_ext (status_interrupt (st_id status) (ext w)) w);;
    emit (StatusInterrupt (st_id status))) w
  = (Ret tt,
     set_trace
       (trace w ++ List.map (fun st => StatusInterrupt (st_id st)) sts)
       (set_ext
          (fold_left (fun σ st => status_interrupt (st_id st) σ) sts (ext w))
          w)).
Proof.
  revert w. induction sts as [|st sts IH]; intros w; simpl.
  - unfold_monad. rewrite app_nil_r. by destruct w.
  - unfold mbind at 1, M_bind at 1. unfold_monad. simpl.
    pose proof (IH (set_trace (trace w ++ [StatusInterrupt (st_id st)])
                      (set_ext (status_interrupt (st_id st) (ext w)) w))) as IH'.
    unfold_monad. simpl in IH'. rewrite IH'. simpl.
    by rewrite <- app_assoc.
Qed.

(** X7.  [interrupt] sets the interrupted flag, logs one warning and calls
    [interrupt()] once on every status registered at that moment, in the
    order of their registration; the registry itself and all other
    attributes are left as they were. *)
Theorem interrupt_reaches_every_registered_status w :
  interrupt cfg w
  = (Ret tt,
     set_trace
       (trace w
        ++ LogWarning ("interrupt tox environment: " +:+ conf_name cfg)
           :: List.map (fun st => StatusInterrupt (st_id st))
                (PyDict.values (_execute_statuses w)))
       (set_ext
          (fold_left (fun σ st => status_interrupt (st_id st) σ)
             (PyDict.values (_execute_statuses w)) (ext w))
          (set_interrupted true w))).
Proof.
  unfold interrupt. unfold mbind at 1, M_bind at 1. unfold emit at 1, modify at 1.
  unfold mbind at 1, M_bind at 1. unfold modify at 1.
  unfold mbind at 1, M_bind at 1. unfold get_world at 1.
  rewrite for_each_status_interrupt. simpl. by rewrite <- app_assoc.
Qed.

End SessionFacts.

Section Scopes.
Context {Σ : Type} `{Collaborators Σ}.
Variable cfg : Conf.
Variable proc : Process.
Implicit Types (w : World Σ).
#[local] Existing Instances M_ret M_bind.

(** what [execute_async] has done when it hands the status to its caller *)
Lemma execute_async_enter_run cmd stdin show cwd run_id w st sh w1 :
  execute_async_enter cfg proc cmd stdin show cwd run_id w = (Ret (st, sh), w1) ->
  exists a w0 msg σ,
    _interrupted w = false
    ∧ _environment_variables cfg proc w = (Ret a, w0)
    ∧ sh = default (3 <? verbosity cfg)%Z show
    ∧ executor_call (mkRequest cmd (default (tox_root cfg) cwd) a stdin run_id)
        sh (ext w0) = (Ret st, σ)
    ∧ w1 = set_execute_statuses
             (PyDict.set (st_id st) st (_execute_statuses w0))
             (set_trace
                (trace w0
                 ++ [LogWarning msg;
                     ExecutorCall
                       (mkRequest cmd (default (tox_root cfg) cwd) a stdin run_id)
                       sh])
                (set_ext σ w0)).
Proof.
  unfold execute_async_enter.
  unfold mbind at 1, M_bind at 1, get_world at 1.
  destruct (_interrupted w) eqn:Hi; [done|].
  unfold mbind at 1, M_bind at 1.
  destruct (_environment_variables cfg proc w) as [[a|e] w0] eqn:Henv; [|done].
  unfold_monad. simpl.
  destruct (executor_call _ _ (ext w0)) as [[st'|e] σ] eqn:Hex; [|done].
  intros [= <- <- <-]. eexists a, w0, _, σ. split_and!; try done.
  simpl. by rewrite <- app_assoc.
Qed.

(** X8.  A status that [execute_async] hands to its caller is registered
    under its identity for the time of the scope and for that time only.
    With a body that leaves the registry alone and an identity that was not
    registered before, the registry after the scope is what it was before it,
    whether the body returns or raises; an exception of the body gets out of
    the scope and then no outcome is recorded and nothing is logged after the
    body.  The executor was called once, with a request that carries the
    memoized mapping object. *)
Theorem execute_async_registers_for_the_scope_only {A : Type}
    cmd stdin show cwd run_id (body : ExecuteStatus -> M A) w st sh w1 :
  execute_async_enter cfg proc cmd stdin show cwd run_id w = (Ret (st, sh), w1) ->
  st_id st ∉ PyDict.keys (_execute_statuses w) ->
  _execute_statuses (snd (body st w1)) = _execute_statuses w1 ->
  let out := execute_async cfg proc cmd stdin show cwd run_id body w in
  PyDict.get (st_id st) (_execute_statuses w1) = Some st
  ∧ _execute_statuses (snd out) = _execute_statuses w
  ∧ (forall e,
       fst (body st w1) = Raise e ->
       fst out = Raise e
       ∧ trace (snd out) = trace (snd (body st w1))
       ∧ _hidden_outcomes (snd out) = _hidden_outcomes (snd (body st w1)))
  ∧ (forall a, fst (body st w1) = Ret a -> fst out = Ret a)
  ∧ Obs.count_executor_calls (trace w1)
    = Obs.count_executor_calls (trace w) + 1
  ∧ (exists req,
       ExecutorCall req sh ∈ trace w1 ∧ _env_vars w1 = Some (req_env req)).
Proof.
  intros Henter Hfresh Hbody out.
  destruct (execute_async_enter_run _ _ _ _ _ _ _ _ _ Henter)
    as (a & w0 & msg & σ & Hi & Henv & Hsh & Hex & Hw1).
  pose proof (mapping_only_environment_variables cfg proc w) as Hmap.
  rewrite Henv in Hmap. simpl in Hmap.
  destruct Hmap as (_ & _ & _ & Hreg & _ & _ & _ & _ & _ & Htr).
  assert (Hreg1 : _execute_statuses w1
                  = PyDict.set (st_id st) st (_execute_statuses w))
    by (by rewrite Hw1, <- Hreg).
  assert (Hout : out
                 = match body st w1 with
                   | (Ret a0, w2) =>
                       (let w3 := set_execute_statuses
                                    (PyDict.pop (st_id st) (_execute_statuses w2)) w2 in
                        (match sh, _hidden_outcomes w3,
                               status_outcome (st_id st) (ext w3) with
                         | true, Some hidden, Some o =>
                             modify (set_hidden_outcomes (Some (hidden ++ [o])))
                         | _, _, _ => mret tt
                         end;;
                         match has_journal cfg, status_outcome (st_id st) (ext w3) with
                         | true, Some o => emit (JournalAddExecute o run_id)
                         | _, _ => mret tt
                         end;;
                         mret a0) w3)
                   | (Raise e, w2) =>
                       (Raise e,
                        set_execute_statuses
                          (PyDict.pop (st_id st) (_execute_statuses w2)) w2)
                   end).
  { unfold out, execute_async. unfold mbind at 1, M_bind at 1. rewrite Henter.
    unfold mbind at 1, M_bind at 1. unfold try_finally, modify at 1.
    by destruct (body st w1) as [[a0|e] w2]. }
  split_and!.
  - rewrite Hreg1. apply get_set_eq.
  - rewrite Hout. destruct (body st w1) as [[a0|e] w2] eqn:Hb; simpl in Hbody.
    + assert (Hpop : PyDict.pop (st_id st) (_execute_statuses w2)
                     = _execute_statuses w)
        by (rewrite Hbody, Hreg1; by apply pop_set_fresh).
      unfold_monad. simpl.
      destruct sh, (_hidden_outcomes w2),
        (status_outcome (st_id st) (ext w2)), (has_journal cfg); simpl; done.
    + simpl. rewrite Hbody, Hreg1. by apply pop_set_fresh.
  - intros e He. rewrite Hout.
    destruct (body st w1) as [[a0|e'] w2]; simpl in *; [done|].
    by injection He as ->.
  - intros a0 Ha. rewrite Hout.
    destruct (body st w1) as [[a1|e'] w2]; simpl in *; [|done].
    injection Ha as ->. unfold_monad. simpl.
    by destruct sh, (_hidden_outcomes w2),
      (status_outcome (st_id st) (ext w2)), (has_journal cfg).
  - rewrite Hw1. simpl. rewrite Htr. unfold Obs.count_executor_calls.
    rewrite List.filter_app, length_app. simpl. done.
  - exists (mkRequest cmd (default (tox_root cfg) cwd) a stdin run_id).
    rewrite Hw1. simpl. split; [set_solver|].
    by apply (environment_variables_memoizes cfg proc w).
Qed.

Lemma execute_async_run {A : Type} cmd stdin show cwd run_id
    (body : ExecuteStatus -> M A) w st sh w1 :
  execute_async_enter cfg proc cmd stdin show cwd run_id w = (Ret (st, sh), w1) ->
  execute_async cfg proc cmd stdin show cwd run_id body w
  = match body st w1 with
    | (Ret a0, w2) =>
        (let w3 := set_execute_statuses
                     (PyDict.pop (st_id st) (_execute_statuses w2)) w2 in
         (match sh, _hidden_outcomes w3, status_outcome (st_id st) (ext w3) with
          | true, Some hidden, Some o =>
              modify (set_hidden_outcomes (Some (hidden ++ [o])))
          | _, _, _ => mret tt
          end;;
          match has_journal cfg, status_outcome (st_id st) (ext w3) with
          | true, Some o => emit (JournalAddExecute o run_id)
          | _, _ => mret tt
          end;;
          mret a0) w3)
    | (Raise e, w2) =>
        (Raise e,
         set_execute_statuses (PyDict.pop (st_id st) (_execute_statuses w2)) w2)
    end.
Proof.
  intros Henter. unfold execute_async. unfold mbind at 1, M_bind at 1.
  rewrite Henter. unfold mbind at 1, M_bind at 1. unfold try_finally, modify at 1.
  by destruct (body st w1) as [[a0|e] w2].
Qed.

Lemma count_interrupts_app id (tr1 tr2 : list event) :
  Sessions.count_interrupts id (tr1 ++ tr2)
  = Sessions.count_interrupts id tr1 + Sessions.count_interrupts id tr2.
Proof.
  unfold Sessions.count_interrupts. by rewrite List.filter_app, length_app.
Qed.

(** X9.  An [interrupt] that comes while a session is in flight (inside the
    scope of [execute_async], no other session registered) reaches that
    session: [interrupt()] is called on its status exactly once; the scope
    then closes normally, the registry is empty again and the interrupted
    flag stays set. *)
Theorem interrupt_in_flight_reaches_the_session
    cmd stdin show cwd run_id w st sh w1 :
  execute_async_enter cfg proc cmd stdin show cwd run_id w = (Ret (st, sh), w1) ->
  _execute_statuses w = [] ->
  let out :=
    run_call cfg proc
      (CallExecuteAsync cmd stdin show cwd run_id [CallInterrupt]) w in
  fst out = Ret tt
  ∧ _interrupted (snd out) = true
  ∧ _execute_statuses (snd out) = []
  ∧ Sessions.count_interrupts (st_id st) (trace (snd out))
    = Sessions.count_interrupts (st_id st) (trace w) + 1.
Proof.
  intros Henter Hempty out.
  destruct (execute_async_enter_run _ _ _ _ _ _ _ _ _ Henter)
    as (a & w0 & msg & σ & Hi & Henv & Hsh & Hex & Hw1).
  pose proof (mapping_only_environment_variables cfg proc w) as Hmap.
  rewrite Henv in Hmap. simpl in Hmap.
  destruct Hmap as (_ & _ & _ & Hreg & _ & _ & _ & _ & _ & Htr).
  assert (Hreg1 : _execute_statuses w1 = [(st_id st, st)])
    by (by rewrite Hw1; simpl; rewrite Hreg, Hempty).
  assert (Htr1 : Sessions.count_interrupts (st_id st) (trace w1)
                 = Sessions.count_interrupts (st_id st) (trace w)).
  { rewrite Hw1. simpl. rewrite Htr, count_interrupts_app.
    unfold Sessions.count_interrupts at 2. simpl. lia. }
  set (w2 := set_trace
               (trace w1
                ++ [LogWarning ("interrupt tox environment: " +:+ conf_name cfg);
                    StatusInterrupt (st_id st)])
               (set_ext (status_interrupt (st_id st) (ext w1))
                  (set_interrupted true w1))).
  assert (Hbody : for_each [CallInterrupt] (run_plain cfg proc) w1 = (Ret tt, w2)).
  { simpl. unfold mbind, M_bind.
    rewrite interrupt_reaches_every_registered_status, Hreg1. done. }
  assert (Hc2 : Sessions.count_interrupts (st_id st) (trace w2)
                = Sessions.count_interrupts (st_id st) (trace w) + 1).
  { unfold w2. simpl. rewrite count_interrupts_app, Htr1.
    unfold Sessions.count_interrupts at 2. simpl.
    rewrite bool_decide_eq_true_2 by done. simpl. lia. }
  assert (Hpop : PyDict.pop (st_id st) (_execute_statuses w2) = []).
  { unfold w2. simpl. rewrite Hreg1. simpl. by rewrite decide_True. }
  assert (Hi2 : _interrupted w2 = true) by done.
  unfold out.
  change (run_call cfg proc
            (CallExecuteAsync cmd stdin show cwd run_id [CallInterrupt]) w)
    with (execute_async cfg proc cmd stdin show cwd run_id
            (fun _ => for_each [CallInterrupt] (run_plain cfg proc)) w).
  rewrite (execute_async_run _ _ _ _ _ _ _ _ _ _ Henter), Hbody.
  cbv zeta. rewrite Hpop. clearbody w2. unfold_monad.
  simpl.
  repeat (match goal with
          | |- context [if ?b then _ else _] => destruct b
          | |- context [match _hidden_outcomes ?x with _ => _ end] =>
              destruct (_hidden_outcomes x)
          | |- context [match status_outcome ?i ?x with _ => _ end] =>
              destruct (status_outcome i x)
          end; simpl);
    (split_and!; [done|done|done|]);
    rewrite ?count_interrupts_app, Hc2;
    unfold Sessions.count_interrupts; simpl; lia.
Qed.

End Scopes.

(** X8 on a run: a session whose body fails. *)
Lemma execute_async_registers_for_the_scope_only_witness :
  let w := start [] in
  let body := fun (_ : ExecuteStatus) => raise (A := unit) (Failure "boom") in
  let out := execute_async cfg0 posix ["ls"] OFF None None "run" body w in
  fst out = Raise (Failure "boom")
  ∧ _execute_statuses (snd out) = [].
Proof.
  intros w body out.
  assert (Henter :
    execute_async_enter cfg0 posix ["ls"] OFF None None "run" w
    = (Ret (mkStatus 7, false),
       snd (execute_async_enter cfg0 posix ["ls"] OFF None None "run" w)))
    by (vm_compute; reflexivity).
  destruct (execute_async_registers_for_the_scope_only cfg0 posix
              ["ls"] OFF None None "run" body w (mkStatus 7) false _
              Henter (not_elem_of_nil _) eq_refl)
    as (_ & Hreg & Hraise & _).
  split; [exact (proj1 (Hraise (Failure "boom") eq_refl))|exact Hreg].
Defined.

(** X9 on a run: an interrupt during a session. *)
Lemma interrupt_in_flight_reaches_the_session_witness :
  let w := start [] in
  let out := run_call cfg0 posix
               (CallExecuteAsync ["ls"] OFF None None "run" [CallInterrupt]) w in
  _interrupted (snd out) = true
  ∧ Sessions.count_interrupts 7 (trace (snd out)) = 1.
Proof.
  intros w out.
  assert (Henter :
    execute_async_enter cfg0 posix ["ls"] OFF None None "run" w
    = (Ret (mkStatus 7, false),
       snd (execute_async_enter cfg0 posix ["ls"] OFF None None "run" w)))
    by (vm_compute; reflexivity).
  destruct (interrupt_in_flight_reaches_the_session cfg0 posix
              ["ls"] OFF None None "run" w (mkStatus 7) false _ Henter eq_refl)
    as (_ & Hi & _ & Hc).
  split; [exact Hi|exact Hc].
Defined.

(** ** The pass_env list *)

Lemma sorted_insert_HdRel (x y : string) (l : list string) :
  String.leb y x = true ->
  HdRel (fun a b => String.leb a b = true) y l ->
  HdRel (fun a b => String.leb a b = true) y (sorted_insert x l).
Proof.
  intros Hyx Hhd. destruct l as [|z l]; simpl.
  - by constructor.
  - destruct (String.leb x z); constructor; [done|by inversion Hhd].
Qed.

Lemma sorted_insert_Sorted (x : string) (l : list string) :
  Sorted (fun a b => String.leb a b = true) l ->
  Sorted (fun a b => String.leb a b = true) (sorted_insert x l).
Proof.
  induction l as [|y l IH]; simpl; intros Hs.
  - by repeat constructor.
  - destruct (String.leb x y) eqn:Hxy.
    + constructor; [done|by constructor].
    + inversion Hs as [|? ? Hl Hhd]; subst. constructor; [by apply IH|].
      apply sorted_insert_HdRel; [|done].
      destruct (String.leb_total x y) as [Hle|Hle]; [congruence|done].
Qed.

Lemma sorted_Sorted (l : list string) :
  Sorted (fun a b => String.leb a b = true) (sorted l).
Proof.
  induction l as [|x l IH]; simpl; [constructor|by apply sorted_insert_Sorted].
Qed.

Lemma NoDup_sorted_insert (x : string) (l : list string) :
  x ∉ l -> NoDup l -> NoDup (sorted_insert x l).
Proof.
  induction l as [|y l IH]; simpl; intros Hx Hnd.
  - apply NoDup_singleton.
  - destruct (String.leb x y).
    + by apply NoDup_cons.
    + apply not_elem_of_cons in Hx as [Hne Hx].
      apply NoDup_cons in Hnd as [Hy Hnd]. apply NoDup_cons. split.
      * rewrite elem_of_sorted_insert. intros [?|?]; congruence.
      * by apply IH.
Qed.

Lemma NoDup_sorted (l : list string) : NoDup l -> NoDup (sorted l).
Proof.
  induction l as [|x l IH]; simpl; intros Hnd; [constructor|].
  apply NoDup_cons in Hnd as [Hx Hnd].
  apply NoDup_sorted_insert; [by rewrite elem_of_sorted|by apply IH].
Qed.

(** X10.  The pass_env list that the environment works with is in
    ascending order and free of duplicates, and holds exactly the configured
    entries and the defaults: the proxy, locale, certificate and library
    path names always, TERM when the standard output is a terminal, the five
    Windows names on win32 and TMPDIR elsewhere. *)
Theorem pass_env_sorted_with_defaults (cfg : Conf) (proc : Process) :
  let l := conf_pass_env cfg proc in
  Sorted (fun a b => String.leb a b = true) l
  ∧ NoDup l
  ∧ (forall x, x ∈ l <-> x ∈ raw_pass_env cfg ∨ x ∈ _default_pass_env proc)
  ∧ (forall x,
       x ∈ _default_pass_env proc
       <-> x ∈ ["https_proxy"; "http_proxy"; "no_proxy"; "LANG"; "LANGUAGE";
                "CURL_CA_BUNDLE"; "SSL_CERT_FILE"; "LD_LIBRARY_PATH"]
           ∨ (x = "TERM" ∧ stdout_isatty proc = true)
           ∨ (x ∈ ["TEMP"; "TMP"; "USERPROFILE"; "PATHEXT"; "MSYSTEM"]
              ∧ sys_platform proc = "win32")
           ∨ (x = "TMPDIR" ∧ sys_platform proc ≠ "win32")).
Proof.
  intros l. unfold l, conf_pass_env, pass_env_post_process. split_and!.
  - apply sorted_Sorted.
  - apply NoDup_sorted. rewrite keys_fromkeys. apply NoDup_dedup_first.
  - intros x. rewrite elem_of_sorted, keys_fromkeys, elem_of_dedup_first.
    rewrite elem_of_app, elem_of_nil. tauto.
  - intros x. unfold _default_pass_env.
    destruct (stdout_isatty proc);
      destruct (bool_decide (sys_platform proc = "win32")) eqn:Hw;
      [apply bool_decide_eq_true in Hw|apply bool_decide_eq_false in Hw
      |apply bool_decide_eq_true in Hw|apply bool_decide_eq_false in Hw];
      rewrite !elem_of_app, ?list_elem_of_singleton; set_solver.
Qed.

(** ** What the mapping holds *)







Section MappingKeys.
Context {Σ : Type} `{Collaborators Σ}.
Variable cfg : Conf.
Variable proc : Process.
Implicit Types (w : World Σ).


End MappingKeys.


(** ** The search path at the edges *)

Lemma split_not_nil (sep : ascii) (s : string) : PyStr.split sep s ≠ [].
Proof.
  destruct s as [|c s]; simpl; [done|].
  destruct (Ascii.eqb c sep); [done|]. by destruct (PyStr.split sep s).
Qed.

Lemma concat_cons (sep x : string) (l : list string) :
  l ≠ [] -> String.concat sep (x :: l) = x +:+ sep +:+ String.concat sep l.
Proof. by destruct l. Qed.

(** splitting on the separator and joining with it gives the string back *)
Lemma join_split (sep : ascii) (s : string) :
  PyStr.join (String sep "") (PyStr.split sep s) = s.
Proof.
  unfold PyStr.join. induction s as [|c s IH]; simpl; [done|].
  destruct (Ascii.eqb c sep) eqn:Hc.
  - apply Ascii.eqb_eq in Hc as ->.
    rewrite concat_cons by apply split_not_nil. by rewrite IH.
  - pose proof (split_not_nil sep s) as Hne.
    destruct (PyStr.split sep s) as [|h t]; [done|].
    destruct t as [|h' t]; simpl in *; by rewrite <- IH.
Qed.

Lemma dedup_first_NoDup (seen l : list string) :
  NoDup l -> (forall x, x ∈ l -> x ∉ seen) -> dedup_first seen l = l.
Proof.
  revert seen. induction l as [|x l IH]; intros seen Hnd Hs; simpl; [done|].
  apply NoDup_cons in Hnd as [Hx Hnd].
  rewrite decide_False by (apply Hs; set_solver). f_equal. apply IH; [done|].
  intros y Hy. rewrite not_elem_of_cons. split; [by intros ->|].
  apply Hs. set_solver.
Qed.

Lemma string_app_nil_r (s : string) : s +:+ "" = s.
Proof. induction s as [|c s IH]; [done|]. rewrite string_app_cons. by f_equal. Qed.

Lemma concat_snoc_empty (sep : string) (l : list string) :
  l ≠ [] -> String.concat sep (l ++ [""]) = String.concat sep l +:+ sep.
Proof.
  induction l as [|x l IH]; [done|]. intros _.
  destruct l as [|y l].
  - simpl. by rewrite string_app_nil_r.
  - change ((x :: y :: l) ++ [""]) with (x :: ((y :: l) ++ [""])).
    rewrite concat_cons by (simpl; discriminate). rewrite IH by done.
    rewrite (concat_cons sep x (y :: l)) by done.
    by rewrite !string_app_assoc.
Qed.

Lemma path_str_not_empty (p : Path) : path_str p ≠ "".
Proof. done. Qed.

(** X12.  With no owned paths and an inherited PATH that names no
    directory twice, [_make_path] answers the inherited PATH as it is. *)
Theorem make_path_without_owned_paths (proc : Process) (env : dict) :
  NoDup (PyStr.split (os_pathsep proc) (default "" (PyDict.get "PATH" env))) ->
  make_path proc [] env = default "" (PyDict.get "PATH" env).
Proof.
  intros Hnd. unfold make_path. rewrite keys_update_fromkeys. simpl.
  rewrite dedup_first_NoDup; [apply join_split|done|].
  intros x _. apply not_elem_of_nil.
Qed.

(** X13.  When PATH is unset or empty in the process environment,
    [_make_path] answers the owned paths, each once, followed by one empty
    entry: with at least one owned path the result ends with the
    separator. *)
Theorem make_path_without_inherited_path (proc : Process) (paths : list Path)
    (env : dict) :
  default "" (PyDict.get "PATH" env) = "" ->
  let owned := dedup_first [] (List.map path_str paths) in
  make_path proc paths env
  = PyStr.join (String (os_pathsep proc) "") (owned ++ [""])
  ∧ (paths ≠ [] ->
     make_path proc paths env
     = PyStr.join (String (os_pathsep proc) "") owned
       +:+ String (os_pathsep proc) "").
Proof.
  intros Hpath owned.
  assert (Hmp : make_path proc paths env
                = PyStr.join (String (os_pathsep proc) "") (owned ++ [""])).
  { unfold make_path. rewrite keys_update_fromkeys, Hpath. simpl.
    rewrite dedup_first_app. fold owned. do 2 f_equal. simpl.
    rewrite decide_False; [done|].
    rewrite app_nil_r, list_elem_of_fmap. intros (p & Hp & _).
    by destruct (path_str_not_empty p). }
  split; [done|]. intros Hne. rewrite Hmp. unfold PyStr.join.
  apply concat_snoc_empty. unfold owned.
  destruct paths as [|p paths]; [done|]. simpl. done.
Qed.

(** X12 on a run. *)
Lemma make_path_without_owned_paths_witness :
  make_path posix [] [("PATH", "/usr/bin:/bin")] = "/usr/bin:/bin".
Proof.
  apply (make_path_without_owned_paths posix [("PATH", "/usr/bin:/bin")]).
  apply (bool_decide_unpack _). vm_compute. exact I.
Defined.

(** X13 on a run: the result ends with the separator. *)
Lemma make_path_without_inherited_path_witness :
  make_path posix [["venv"; "bin"]] [] = "/venv/bin:".
Proof.
  destruct (make_path_without_inherited_path posix [["venv"; "bin"]] [] eq_refl)
    as [_ Hsep].
  exact (Hsep ltac:(discriminate)).
Defined.

(** ** Assigning the path list before or after the first access *)

Section PathsOrder.
Context {Σ : Type} `{Collaborators Σ}.
Variable cfg : Conf.
Variable proc : Process.
Implicit Types (w : World Σ).
#[local] Existing Instances M_ret M_bind.



End PathsOrder.


(** ** The completion hook and a swallowed [Recreate] *)

Section Completion.
Context {Σ : Type} `{Collaborators Σ}.
Variable cfg : Conf.
Implicit Types (w : World Σ).
#[local] Existing Instances M_ret M_bind.

Lemma passive_only_refl w : passive_only w w.
Proof. exists []. by rewrite app_nil_r. Qed.

Lemma passive_only_trans w1 w2 w3 :
  passive_only w1 w2 -> passive_only w2 w3 -> passive_only w1 w3.
Proof.
  intros (tr1 & H1 & P1) (tr2 & H2 & P2). exists (tr1 ++ tr2).
  rewrite H2, H1, <- app_assoc, forallb_app, P1, P2. done.
Qed.

Lemma passive_only_emit (e : event) :
  Frames.passive e = true -> Keeps.keeps (Σ := Σ) passive_only (emit e).
Proof. intros He w. exists [e]. simpl. by rewrite He. Qed.

Ltac passive_auto :=
  repeat first
    [ keeps_step passive_only_refl passive_only_trans
    | apply passive_only_emit; reflexivity
    | apply keeps_modify; intros ?; exists []; by rewrite app_nil_r ].

Lemma passive_only_clean force :
  Keeps.keeps (Σ := Σ) passive_only (_clean cfg force).
Proof. unfold _clean, cache_reset, update_setup_clean. passive_auto. Qed.

Lemma passive_only_setup_env : Keeps.keeps (Σ := Σ) passive_only (_setup_env cfg).
Proof.
  unfold _setup_env, _handle_env_tmp_dir.
  apply (keeps_bind _ passive_only_trans).
  { intros w. unfold cache_compare. destruct (cache w !! "ToxEnv"); simpl;
      exists []; by rewrite app_nil_r. }
  intros [eq old]. passive_auto.
Qed.

Lemma count_hook_passive h (tr : list event) :
  forallb Frames.passive tr = true -> Obs.count_hook h tr = 0.
Proof.
  induction tr as [|e tr IH]; [done|]. simpl.
  intros [He Htr]%andb_true_iff. unfold Obs.count_hook in *. simpl.
  destruct e; try done; by apply IH.
Qed.

Lemma count_hook_passive_only h w w' :
  passive_only w w' ->
  Obs.count_hook h (trace w') = Obs.count_hook h (trace w).
Proof.
  intros (tr & -> & Hp). rewrite count_hook_app, (count_hook_passive h tr Hp). lia.
Qed.

(** one provisioning attempt never calls the completion hook *)
Lemma provision_no_completion_hook w :
  Obs.count_hook DoneWithSetup (trace (snd (provision cfg w)))
  = Obs.count_hook DoneWithSetup (trace w).
Proof.
  rewrite provision_run.
  pose proof (passive_only_setup_env w) as Hp.
  destruct (_setup_env cfg w) as [[[]|e] w1]; simpl in *.
  - rewrite call_hook_run. simpl.
    rewrite count_hook_snoc_other by done. by apply count_hook_passive_only.
  - by apply count_hook_passive_only.
Qed.

(** X15.  With the effective recreate flag on, a [Recreate] raised by the
    provisioning of the [try] is swallowed: [setup] neither retries nor
    raises; it returns, and the [finally] marks the environment as set
    up. *)
Theorem setup_swallows_recreate_when_recreating (recreate : bool) w reason w1 :
  rs_setup (_run_state w) = false ->
  fst (_platform_check cfg w) = Ret tt ->
  recreate || conf_recreate cfg = true ->
  provision cfg (snd (_clean cfg false w)) = (Raise (Recreate reason), w1) ->
  setup cfg recreate w = (Ret tt, snd (update_setup_clean true false w1))
  ∧ rs_setup (_run_state (snd (setup cfg recreate w))) = true
  ∧ trace (snd (setup cfg recreate w)) = trace w1.
Proof.
  intros Hs Hp Hr Hprov.
  assert (Hsetup : setup cfg recreate w
                   = (Ret tt, snd (update_setup_clean true false w1))).
  { rewrite setup_run by done. unfold before_try. rewrite Hr.
    unfold try_finally. by rewrite Hprov. }
  by rewrite Hsetup.
Qed.

(** X16.  The completion hook is called by a [setup] call at most once, and
    only on the path where the provisioning of the [try] raised nothing:
    after a [Recreate], retried or swallowed, and after any other exception
    [setup] ends without calling it, also when the retry succeeds. *)
Theorem setup_completion_hook_only_without_exception (recreate : bool) w :
  rs_setup (_run_state w) = false ->
  fst (_platform_check cfg w) = Ret tt ->
  Obs.count_hook DoneWithSetup (trace (snd (setup cfg recreate w)))
  = Obs.count_hook DoneWithSetup (trace w)
    + match fst (provision cfg (before_try cfg recreate w)) with
      | Ret _ => 1
      | Raise _ => 0
      end.
Proof.
  intros Hs Hp. rewrite setup_run by done. rewrite try_finally_runs_fin.
  assert (Hw0 : Obs.count_hook DoneWithSetup (trace (before_try cfg recreate w))
                = Obs.count_hook DoneWithSetup (trace w)).
  { unfold before_try. destruct (recreate || conf_recreate cfg); [|done].
    apply count_hook_passive_only, passive_only_clean. }
  pose proof (provision_no_completion_hook (before_try cfg recreate w)) as Hprov.
  destruct (provision cfg (before_try cfg recreate w)) as [[[]|e] w1];
    simpl in Hprov; simpl.
  - unfold _done_with_setup. rewrite call_hook_run. simpl.
    rewrite count_hook_app, Hprov, Hw0. unfold Obs.count_hook at 2. simpl. lia.
  - destruct e; simpl; try (rewrite Hprov, Hw0; lia).
    destruct (negb (recreate || conf_recreate cfg)); simpl;
      [|rewrite Hprov, Hw0; lia].
    rewrite retry_run.
    rewrite provision_no_completion_hook.
    rewrite (count_hook_passive_only DoneWithSetup _ _ (passive_only_clean true _)).
    simpl. rewrite count_hook_snoc_other by done. rewrite Hprov, Hw0. lia.
Qed.

End Completion.

(** X15 on a run: a forced setup whose installer hook raises [Recreate]. *)
Lemma setup_swallows_recreate_when_recreating_witness :
  let w := start [Some (Recreate "deps")] in
  fst (setup cfg0 true w) = Ret tt
  ∧ rs_setup (_run_state (snd (setup cfg0 true w))) = true.
Proof.
  intros w.
  assert (Hprov : provision cfg0 (snd (_clean cfg0 false w))
                  = (Raise (Recreate "deps"),
                     snd (provision cfg0 (snd (_clean cfg0 false w)))))
    by (vm_compute; reflexivity).
  destruct (setup_swallows_recreate_when_recreating cfg0 true w "deps" _
              eq_refl eq_refl eq_refl Hprov) as (Hrun & Hdone & _).
  split; [by rewrite Hrun|exact Hdone].
Defined.

(** X16 on a run: the retry succeeds and the completion hook is not
    called. *)
Lemma setup_completion_hook_only_without_exception_witness :
  let w := start [Some (Recreate "deps")] in
  fst (setup cfg0 false w) = Ret tt
  ∧ Obs.count_hook DoneWithSetup (trace (snd (setup cfg0 false w))) = 0.
Proof.
  intros w. split; [reflexivity|].
  exact (setup_completion_hook_only_without_exception cfg0 false w eq_refl eq_refl).
Defined.

(** ** Waiting for a session *)

Section Waiting.
Context {Σ : Type} `{Collaborators Σ} `{Execute.Waiter Σ}.
Variable cfg : Conf.
Variable proc : Process.
Implicit Types (w : World Σ).
#[local] Existing Instances M_ret M_bind.

(** when the exit code shows after exactly [n] waits, the loop makes those
    [n] waits and no more, whatever fuel is left *)
Lemma wait_for_exit_after (n fuel id : nat) w (c : Z) :
  (forall m, m < n ->
     Execute.status_exit_code id (Nat.iter m (Execute.status_wait id) (ext w))
     = None) ->
  Execute.status_exit_code id (Nat.iter n (Execute.status_wait id) (ext w))
  = Some c ->
  n <= fuel ->
  Execute.wait_for_exit fuel id w
  = (Ret true, set_ext (Nat.iter n (Execute.status_wait id) (ext w)) w).
Proof.
  revert fuel w. induction n as [|n IH]; intros fuel w Hnone Hsome Hle.
  - simpl in *. destruct fuel; simpl; rewrite Hsome; by destruct w.
  - destruct fuel as [|fuel]; [lia|].
    pose proof (Hnone 0 ltac:(lia)) as Hfirst.
    change (Execute.status_exit_code id (ext w) = None) in Hfirst.
    rewrite Nat.iter_succ_r in Hsome. rewrite Nat.iter_succ_r.
    cbn [Execute.wait_for_exit]. rewrite Hfirst.
    rewrite (IH fuel (set_ext (Execute.status_wait id (ext w)) w)).
    + by destruct w.
    + intros m Hm. specialize (Hnone (S m) ltac:(lia)).
      rewrite Nat.iter_succ_r in Hnone. by destruct w.
    + by destruct w.
    + lia.
Qed.

(** X17.  On an interrupted environment [execute] raises [SystemExit(-2)]
    at once: the world is left as it was and no status is waited for. *)
Theorem execute_interrupted (fuel : nat) cmd stdin show cwd run_id w :
  _interrupted w = true ->
  Execute.execute cfg proc fuel cmd stdin show cwd run_id w
  = (Raise (SystemExit (-2)), w).
Proof.
  intros Hi. unfold Execute.execute. unfold mbind at 1, M_bind at 1.
  by rewrite execute_async_interrupted.
Qed.

(** X18.  When the status that the executor starts reports its exit code
    after exactly [n] waits, [execute] waits [n] times, closes the scope and
    answers the outcome of the status, or raises [RuntimeError] when the
    status has none; the answer is the same for every fuel of at least [n],
    and the registry is afterwards what it was before the call. *)
Theorem execute_returns_outcome_after_waits
    (fuel n : nat) cmd stdin show cwd run_id w st sh w1 (c : Z) :
  execute_async_enter cfg proc cmd stdin show cwd run_id w = (Ret (st, sh), w1) ->
  st_id st ∉ PyDict.keys (_execute_statuses w) ->
  (forall m, m < n ->
     Execute.status_exit_code (st_id st)
       (Nat.iter m (Execute.status_wait (st_id st)) (ext w1)) = None) ->
  Execute.status_exit_code (st_id st)
    (Nat.iter n (Execute.status_wait (st_id st)) (ext w1)) = Some c ->
  n <= fuel ->
  let σ := Nat.iter n (Execute.status_wait (st_id st)) (ext w1) in
  let out := Execute.execute cfg proc fuel cmd stdin show cwd run_id w in
  fst out
  = match status_outcome (st_id st) σ with
    | Some outcome => Ret (Some outcome)
    | None => Raise (Failure "RuntimeError")
    end
  ∧ ext (snd out) = σ
  ∧ _execute_statuses (snd out) = _execute_statuses w.
Proof.
  intros Henter Hfresh Hnone Hsome Hle σ out.
  destruct (execute_async_enter_run _ _ _ _ _ _ _ _ _ _ _ Henter)
    as (a & w0 & msg & σ0 & Hi & Henv & Hsh & Hex & Hw1).
  pose proof (mapping_only_environment_variables cfg proc w) as Hmap.
  rewrite Henv in Hmap. simpl in Hmap.
  destruct Hmap as (_ & _ & _ & Hreg & _).
  assert (Hreg1 : _execute_statuses w1
                  = PyDict.set (st_id st) st (_execute_statuses w))
    by (by rewrite Hw1, <- Hreg).
  assert (Hrun : exists w',
            Execute.execute cfg proc fuel cmd stdin show cwd run_id w
            = (match status_outcome (st_id st) σ with
               | Some outcome => Ret (Some outcome)
               | None => Raise (Failure "RuntimeError")
               end, w')
            ∧ ext w' = σ
            ∧ _execute_statuses w' = _execute_statuses w).
  { unfold Execute.execute. unfold mbind at 1, M_bind at 1.
    rewrite (execute_async_run _ _ _ _ _ _ _ _ _ _ _ _ Henter).
    unfold mbind at 1, M_bind at 1.
    rewrite (wait_for_exit_after n fuel (st_id st) w1 c Hnone Hsome Hle).
    fold σ. unfold mret at 1, M_ret at 1. cbv zeta.
    cbn [_execute_statuses set_ext ext set_execute_statuses _hidden_outcomes].
    rewrite Hreg1, pop_set_fresh by done.
    destruct (status_outcome (st_id st) σ) as [o|] eqn:Ho;
      destruct sh; destruct (_hidden_outcomes w1); destruct (has_journal cfg);
      unfold_monad; simpl; rewrite ?Ho; eexists; split_and!; done. }
  destruct Hrun as (w' & Hrun & Hext & Hst).
  unfold out. by rewrite Hrun.
Qed.

End Waiting.

(** X18 on a run: the status reports its exit code after two waits. *)
Lemma execute_returns_outcome_after_waits_witness :
  let w := start [None; None] in
  fst (Execute.execute cfg0 posix 5 ["ls"] OFF None None "run" w)
  = Ret (Some (mkOutcome [] 0))
  ∧ fst (Execute.execute cfg0 posix 1 ["ls"] OFF None None "run" w) = Ret None.
Proof.
  intros w.
  assert (Henter :
    execute_async_enter cfg0 posix ["ls"] OFF None None "run" w
    = (Ret (mkStatus 7, false),
       snd (execute_async_enter cfg0 posix ["ls"] OFF None None "run" w)))
    by (vm_compute; reflexivity).
  destruct (execute_returns_outcome_after_waits cfg0 posix 5 2
              ["ls"] OFF None None "run" w (mkStatus 7) false _ 0%Z
              Henter (not_elem_of_nil _)) as (Hout & _).
  - intros [|[|m]] Hm; [reflexivity|reflexivity|lia].
  - reflexivity.
  - lia.
  - split; [exact Hout|reflexivity].
Defined.

(** X17 on a run: [execute] after [interrupt]. *)
Lemma execute_interrupted_witness :
  let w := snd (interrupt cfg0 (start [None])) in
  Execute.execute cfg0 posix 5 ["ls"] OFF None None "run" w
  = (Raise (SystemExit (-2)), w).
Proof.
  intros w. apply (execute_interrupted cfg0 posix). reflexivity.
Defined.

(** ** Printing a configuration set *)

Section PrintingFacts.
Context {Σ V : Type}.
Variable indent : string -> string -> string.
Variable stringify : V -> result (string * bool).
Variable repr : exn -> string.
#[local] Existing Instances ShowConfig.P_ret ShowConfig.P_bind.
Implicit Types (F : ShowConfig.Fore) (conf : ShowConfig.ConfigSet Σ V)
  (s : Σ * string) (σ : Σ) (out : string).

Ltac unfold_print :=
  unfold mbind, mret, ShowConfig.P_bind, ShowConfig.P_ret, ShowConfig.invoke,
    ShowConfig.inspect, ShowConfig.of_result, ShowConfig.print,
    ShowConfig.try_except_Exception in *.

Lemma for_in_app {A : Type} (l1 l2 : list A)
    (body : A -> ShowConfig.P (Σ := Σ) unit) s :
  ShowConfig.for_in (l1 ++ l2) body s
  = match ShowConfig.for_in l1 body s with
    | (Ret _, s1) => ShowConfig.for_in l2 body s1
    | (Raise e, s1) => (Raise e, s1)
    end.
Proof.
  revert s. induction l1 as [|x l1 IH]; intros s; [done|].
  simpl. unfold mbind, ShowConfig.P_bind.
  destruct (body x s) as [[[]|e] s']; [apply IH|done].
Qed.

Lemma print_conf_key_returns F c conf key s :
  ShowConfig.loads_raise_exceptions_only stringify conf ->
  exists s', ShowConfig.print_conf_key F indent stringify repr c conf key s
             = (Ret tt, s').
Proof.
  intros [Hget Hstr]. unfold ShowConfig.print_conf_key, ShowConfig.print_key_value.
  unfold_print.
  destruct (ShowConfig.cs_contains conf key (fst s)); simpl; [|by eexists].
  destruct (ShowConfig.cs_getitem conf _ (fst s)) as [[v|e] σ'] eqn:Hload.
  - destruct (stringify v) as [[as_str ml]|e] eqn:Hv.
    + destruct ml; [destruct (PyStr.contains _ as_str)|]; simpl; by eexists.
    + rewrite (Hstr _ _ Hv). simpl. by eexists.
  - rewrite (Hget _ _ _ _ Hload). simpl. by eexists.
Qed.

Lemma print_conf_loop_returns F c conf keys s :
  ShowConfig.loads_raise_exceptions_only stringify conf ->
  exists s', ShowConfig.print_conf_loop F indent stringify repr c conf keys s
             = (Ret tt, s').
Proof.
  intros Hconf. unfold ShowConfig.print_conf_loop.
  revert s. induction keys as [|key keys IH]; intros s; [by eexists|].
  simpl. unfold mbind, ShowConfig.P_bind.
  destruct (print_conf_key_returns F c conf key s Hconf) as (s1 & ->).
  apply IH.
Qed.

(** X19.  An exception that loading or rendering a value raises does not
    get out of [print_conf]: when these raise nothing but subclasses of
    [Exception], [print_conf] returns, for every selection of keys and from
    every state. *)
Theorem print_conf_returns_when_values_fail F c conf keys s :
  ShowConfig.loads_raise_exceptions_only stringify conf ->
  exists s', ShowConfig.print_conf F indent stringify repr c conf keys s
             = (Ret tt, s').
Proof.
  intros Hconf. unfold ShowConfig.print_conf.
  unfold mbind at 1, ShowConfig.P_bind at 1.
  assert (Hover : exists over,
            match keys with
            | [] => ShowConfig.inspect (ShowConfig.cs_iter conf)
            | _ :: _ => mret keys
            end s = (Ret over, s)) by (destruct keys; by eexists).
  destruct Hover as (over & ->).
  unfold mbind at 1, ShowConfig.P_bind at 1.
  destruct (print_conf_loop_returns F c conf over s Hconf) as (s1 & ->).
  unfold_print. unfold ShowConfig.print_comment, ShowConfig.print.
  destruct (ShowConfig.cs_unused conf (fst s1)), keys; by eexists.
Qed.

(** X20.  An exception that is no [Exception] ([SystemExit]) is not caught:
    when the loop has printed the keys [done] and loading the next key
    raises it, [print_conf] raises it too, and the output ends with the
    entries of [done]: nothing is written for the key that failed. *)
Theorem print_conf_propagates_base_exception
    F c conf done key rest σ out σ1 out1 e σ2 :
  ShowConfig.print_conf_loop F indent stringify repr c conf done (σ, out)
  = (Ret tt, (σ1, out1)) ->
  ShowConfig.cs_contains conf key σ1 = true ->
  ShowConfig.cs_getitem conf (ShowConfig.cs_primary_key conf key σ1) σ1
  = (Raise e, σ2) ->
  ShowConfig.is_Exception e = false ->
  ShowConfig.print_conf F indent stringify repr c conf (done ++ key :: rest)
    (σ, out)
  = (Raise e, (σ2, out1)).
Proof.
  intros Hdone Hin Hload He. unfold ShowConfig.print_conf.
  unfold mbind at 1, ShowConfig.P_bind at 1.
  assert (Hover : match done ++ key :: rest with
                  | [] => ShowConfig.inspect (ShowConfig.cs_iter conf)
                  | _ :: _ => mret (done ++ key :: rest)
                  end (σ, out) = (Ret (done ++ key :: rest), (σ, out)))
    by (by destruct done).
  rewrite Hover. unfold mbind at 1, ShowConfig.P_bind at 1.
  unfold ShowConfig.print_conf_loop in *. rewrite for_in_app, Hdone.
  simpl. unfold mbind at 1, ShowConfig.P_bind at 1.
  unfold ShowConfig.print_conf_key. unfold_print. simpl.
  rewrite Hin. simpl. rewrite Hload. by rewrite He.
Qed.

(** X21.  A value whose text has no line break is printed on the line of
    its key, as [key = text], whether or not [stringify] calls it
    multi-line; [textwrap.indent] is not applied to it. *)
Theorem print_conf_key_single_line F c conf key σ out v σ1 text ml :
  ShowConfig.cs_contains conf key σ = true ->
  ShowConfig.cs_getitem conf (ShowConfig.cs_primary_key conf key σ) σ
  = (Ret v, σ1) ->
  stringify v = Ret (text, ml) ->
  PyStr.contains "010" text = false ->
  ShowConfig.print_conf_key F indent stringify repr c conf key (σ, out)
  = (Ret tt,
     (σ1,
      out +:+ ShowConfig._colored F c (ShowConfig.GREEN F)
                (ShowConfig.cs_primary_key conf key σ)
          +:+ " = " +:+ text +:+ ShowConfig.newline)).
Proof.
  intros Hin Hload Hv Hline.
  unfold ShowConfig.print_conf_key, ShowConfig.print_key_value.
  unfold_print. simpl. rewrite Hin. simpl. rewrite Hload, Hv, Hline. simpl.
  rewrite andb_true_r. replace (if ml then false else ml) with false
    by (by destruct ml).
  simpl. do 2 f_equal.
  rewrite !string_app_nil_r, !string_app_assoc. reflexivity.
Qed.

(** X22.  A selection of keys none of which the set knows prints nothing:
    neither the entries of the set nor the report of unused keys, and no
    value is loaded. *)
Theorem print_conf_unknown_keys_print_nothing F c conf keys s :
  keys <> [] ->
  (forall key σ, key ∈ keys -> ShowConfig.cs_contains conf key σ = false) ->
  ShowConfig.print_conf F indent stringify repr c conf keys s = (Ret tt, s).
Proof.
  intros Hkeys Hunknown.
  assert (Hloop : forall l s0,
            l ⊆ keys ->
            ShowConfig.print_conf_loop F indent stringify repr c conf l s0
            = (Ret tt, s0)).
  { unfold ShowConfig.print_conf_loop. induction l as [|k l IH]; intros s0 Hl;
      [done|].
    simpl. unfold mbind at 1, ShowConfig.P_bind at 1.
    unfold ShowConfig.print_conf_key. unfold_print.
    rewrite Hunknown by set_solver. simpl. apply IH. set_solver. }
  specialize (Hloop keys s ltac:(done)).
  unfold ShowConfig.print_conf. destruct keys as [|k0 keys0]; [done|].
  unfold mbind at 1, ShowConfig.P_bind at 1. unfold mret at 1, ShowConfig.P_ret at 1.
  unfold mbind at 1, ShowConfig.P_bind at 1. rewrite Hloop.
  unfold_print. by destruct (ShowConfig.cs_unused conf (fst s)).
Qed.

End PrintingFacts.

(** X19 on a run: the interpreter of [base_python] cannot be found. *)
Lemma print_conf_returns_when_values_fail_witness :
  fst (ShowConfig.print_conf Listing.tags Listing.indent_first Listing.verbatim
         Listing.repr_name true
         (Listing.conf_failing (Failure "NoInterpreter")) [] (0, ""))
  = Ret tt.
Proof.
  destruct (print_conf_returns_when_values_fail
              Listing.indent_first Listing.verbatim Listing.repr_name
              Listing.tags true
              (Listing.conf_failing (Failure "NoInterpreter")) [] (0, ""))
    as (s' & Hrun).
  - split.
    + intros key σ e σ'. simpl.
      destruct (String.eqb key "base_python"); by intros [= <- _].
    + by intros v e [=].
  - by rewrite Hrun.
Defined.

(** X20 on a run: loading [base_python], the second key asked for, exits. *)
Lemma print_conf_propagates_base_exception_witness :
  ShowConfig.print_conf Listing.tags Listing.indent_first Listing.verbatim
    Listing.repr_name false (Listing.conf_failing (SystemExit 1))
    ["commands"; "basepython"; "commands"] (0, "")
  = (Raise (SystemExit 1), (2, "commands = pytest" +:+ ShowConfig.newline)).
Proof.
  apply (print_conf_propagates_base_exception
           Listing.indent_first Listing.verbatim Listing.repr_name
           Listing.tags false (Listing.conf_failing (SystemExit 1))
           ["commands"] "basepython" ["commands"] 0 "" 1
           ("commands = pytest" +:+ ShowConfig.newline) (SystemExit 1) 2);
    reflexivity.
Defined.

(** X21 on a run: a one-line value that [stringify] calls multi-line. *)
Lemma print_conf_key_single_line_witness :
  ShowConfig.print_conf_key Listing.tags Listing.indent_first Listing.verbatim
    Listing.repr_name true (Listing.conf_failing (Failure "NoInterpreter"))
    "commands" (0, "")
  = (Ret tt, (1, "<G>commands<0> = pytest" +:+ ShowConfig.newline)).
Proof.
  apply (print_conf_key_single_line
           Listing.indent_first Listing.verbatim Listing.repr_name
           Listing.tags true (Listing.conf_failing (Failure "NoInterpreter"))
           "commands" 0 "" "pytest" 1 "pytest" true);
    reflexivity.
Defined.

(** X22 on a run: only a key that the set does not know is asked for. *)
Lemma print_conf_unknown_keys_print_nothing_witness :
  ShowConfig.print_conf Listing.tags Listing.indent_first Listing.verbatim
    Listing.repr_name true (Listing.conf_failing (Failure "NoInterpreter"))
    ["base"] (0, "")
  = (Ret tt, (0, "")).
Proof.
  apply (print_conf_unknown_keys_print_nothing
           Listing.indent_first Listing.verbatim Listing.repr_name).
  - done.
  - intros key σ ->%list_elem_of_singleton. reflexivity.
Defined.
